(** * info_tech_cli: the command dispatcher of [info_tech_cli/cli.py]

    The program is a [click] command group with four sub-commands and a
    process entry point [main].  The development has three layers:

    - [Py]: the fragment of the Python runtime the program relies on
      (exceptions, [sys.exit] and exit statuses, truthiness of [os.getenv]
      results, the encoding of standard output);
    - [Click]: the documented behaviour of the [click] framework the
      decorators of [cli.py] appeal to, in the effect monad in which the
      program is written (a trace of observable events together with a
      normal or exceptional outcome): [click.echo], parameter
      declarations, processing of the parsed command line,
      [Context.ensure_object], group dispatch and the standalone-mode
      exception handling of [BaseCommand.main];
    - [Cli]: [cli.py] itself, definition by definition.

    The two handlers [create_module] and [delete_module] live in
    [info_tech_cli/commands/], which is outside this development; they are
    section variables, so every statement holds for all handlers.  What a
    run depends on besides the command line is explicit: the environment
    variables, the encoding of standard output and, where it matters, the
    moments at which the user interrupts. *)

From Stdlib Require Import ZArith Ascii.
From stdpp Require Import strings gmap list.

Open Scope string_scope.
Open Scope list_scope.

(** ** Python runtime *)

Module Py.

(** [sys.stdout] and [sys.stderr]. *)
Inductive stream := Stdout | Stderr.

#[global] Instance stream_eq_dec : EqDecision stream.
Proof. solve_decision. Defined.

(** Values that end up in the keyword arguments of a callback. *)
Inductive value :=
| VNone
| VStr (s : string)
| VBool (b : bool).

#[global] Instance value_eq_dec : EqDecision value.
Proof. solve_decision. Defined.

(** What may be stored in [ctx.obj]: a [dict], or some other object. *)
Inductive object :=
| Dict (d : gmap string string)
| Opaque (repr : string).

(** [os.environ]; [os.getenv k] is [environ !! k]. *)
Abbreviation environ := (gmap string string).

Definition getenv (env : environ) (k : string) : option string := env !! k.

(** Truth value of what [os.getenv] returns: [None] and the empty string
    are falsy, every other string is truthy. *)
Definition truthy (v : option string) : bool :=
  match v with
  | None => false
  | Some s => negb (String.eqb s "")
  end.

(** The reasons for which click rejects a command line. *)
Inductive usage_error :=
| NoSuchCommand (name : string)
| BadChoice (param : string) (decls : list string) (rejected : string)
            (choices : list string)
| MissingParameter (param : string)
| ExtraArguments (extra : list string).

(** The exception classes the program can meet.  Three kinds derive from
    [BaseException] only: [KeyboardInterrupt], [SystemExit] and the others
    ([GeneratorExit], a class of the user's), gathered in [BaseError].  The
    instances of [Exception] are the ones click's exception handling names,
    among them an [OSError] whose [errno] is [EPIPE], and [PyError] for all
    the others, which click lets through; it carries [str(e)]. *)
Inductive exn :=
| KeyboardInterrupt
| SystemExit (code : Z)
| BaseError (message : string)
| EOFError
| BrokenPipe                                     (* OSError, errno EPIPE *)
| Abort                                          (* click.exceptions.Abort *)
| Exit (code : Z)                                (* click.exceptions.Exit *)
| UsageError (detail : usage_error)              (* exit_code = 2 *)
| ClickException (exit_code : Z) (message : string)
| PyError (message : string).

(** [isinstance(e, Exception)]. *)
Definition is_Exception (e : exn) : bool :=
  match e with
  | KeyboardInterrupt | SystemExit _ | BaseError _ => false
  | _ => true
  end.

(** Outcome of a computation: a value, or a raised exception. *)
Inductive result (A : Type) :=
| Ok (a : A)
| Raised (e : exn).
Arguments Ok {A} a.
Arguments Raised {A} e.

(** The exit status the operating system sees for [sys.exit(code)], on a
    64-bit Unix: the interpreter turns the integer into a C [long] (255
    stands for one that does not fit) and the process keeps its low eight
    bits. *)
Definition exit_status (code : Z) : Z :=
  if (- 2 ^ 63 <=? code)%Z && (code <? 2 ^ 63)%Z then (code mod 256)%Z
  else 255%Z.

(** How the interpreter ends: [SystemExit] sets the exit status; a script
    that runs off its end exits with 0; any other exception that nobody
    caught ends in a traceback. *)
Inductive termination :=
| Exited (status : Z)
| Uncaught (e : exn).

Definition terminate (r : result unit) : termination :=
  match r with
  | Ok _ => Exited 0
  | Raised (SystemExit code) => Exited (exit_status code)
  | Raised e => Uncaught e
  end.

(** The text encoding of [sys.stdout], as far as the program can tell:
    which texts it can encode, for those that are not plain ASCII, and
    [str] of the [UnicodeEncodeError] raised for one it cannot.  ASCII text
    is taken to be encodable always.  ([sys.stderr] replaces what it cannot
    encode and never raises.) *)
Record console := mkConsole {
  encodes : string -> bool;
  encode_error : string -> string
}.

Fixpoint is_ascii (s : string) : bool :=
  match s with
  | EmptyString => true
  | String a s' => Nat.ltb (Ascii.nat_of_ascii a) 128 && is_ascii s'
  end.

End Py.
Export Py.

(** ** The click framework *)

Module Click.

(** *** Contexts *)

(** A [click.Context], reduced to the two attributes the program and its
    handlers can observe here: the name under which the command runs and
    the user object [obj].  The group context of this program is the root
    context, and the context of a sub-command takes its [obj] from the
    group context. *)
Record Context := mkContext {
  info_name : string;
  obj : option object
}.

(** [Context.ensure_object(dict)]: keep [obj] when it already is a
    [dict], otherwise install a fresh empty one. *)
Definition ensure_object_dict (ctx : Context) : Context :=
  match obj ctx with
  | Some (Dict _) => ctx
  | _ => {| info_name := info_name ctx; obj := Some (Dict ∅) |}
  end.

(** *** Effects *)

(** What a run does that can be seen from outside:
    - [Echo file message]: a call [click.echo(message, file=...)];
    - [ShowUsage e]: [UsageError.show()], which writes the usage line and
      the error text to the error stream; the text names the parameter,
      the rejected value and, for a choice, lists the permitted values;
    - [Call h ctx args]: a call of the external handler [h].  Whatever the
      handler does (files, remote repositories, output of its own) happens
      inside this event. *)
Inductive event :=
| Echo (file : stream) (message : string)
| ShowUsage (e : usage_error)
| Call (handler : string) (ctx : Context) (args : list value).

Definition trace := list event.

(** A computation: the events emitted so far, and how it ended. *)
Definition M (A : Type) : Type := (trace * result A)%type.

Definition ret {A} (a : A) : M A := ([], Ok a).

Definition raise {A} (e : exn) : M A := ([], Raised e).

Definition bind {A B} (m : M A) (k : A -> M B) : M B :=
  match m with
  | (t, Ok a) => let '(t', r) := k a in (t ++ t', r)
  | (t, Raised e) => (t, Raised e)
  end.

(** [try: m except ...: handler]; a handler re-raises what its clauses do
    not match.  Exceptions raised by the handler itself are not caught
    again by the same statement. *)
Definition try_except {A} (m : M A) (handler : exn -> M A) : M A :=
  match m with
  | (t, Ok a) => (t, Ok a)
  | (t, Raised e) => let '(t', r) := handler e in (t ++ t', r)
  end.

Notation "x <- m ;; k" := (bind m (fun x => k))
  (at level 100, m at next level, right associativity).
Notation "m ;; k" := (bind m (fun _ => k))
  (at level 100, right associativity).

Definition emit (e : event) : M unit := ([e], Ok tt).

(** The handler calls of a trace, in order, and the contexts they got. *)
Definition calls (t : trace) : list (string * list value) :=
  omap (fun e => match e with Call h _ a => Some (h, a) | _ => None end) t.

Definition call_contexts (t : trace) : list Context :=
  omap (fun e => match e with Call _ ctx _ => Some ctx | _ => None end) t.

(** The messages echoed to one stream, in order. *)
Definition echoed (file : stream) (t : trace) : list string :=
  omap (fun e => match e with
                 | Echo f m => if decide (f = file) then Some m else None
                 | _ => None
                 end) t.

(** A message that reaches the error stream. *)
Definition on_stderr (ev : event) : Prop :=
  match ev with
  | Echo Stderr message => message ≠ ""
  | ShowUsage _ => True
  | _ => False
  end.

(** [sys.exit(code)]. *)
Definition sys_exit {A} (code : Z) : M A := raise (SystemExit code).

(** [click.echo(message, err=err)]: the message is written to the error
    stream, or to standard output, whose encoding may refuse it. *)
Definition echo (con : console) (message : string) (err : bool) : M unit :=
  if err then emit (Echo Stderr message)
  else if is_ascii message || encodes con message
       then emit (Echo Stdout message)
       else raise (PyError (encode_error con message)).

(** [click.style(text, fg=...)] wraps the text in the ANSI colour code and
    a reset. *)
Inductive colour :=
| black | red | green | yellow | blue | magenta | cyan | white.

Definition ansi_code (c : colour) : string :=
  match c with
  | black => "30" | red => "31" | green => "32" | yellow => "33"
  | blue => "34" | magenta => "35" | cyan => "36" | white => "37"
  end.

Definition ESC : string := String (Ascii.ascii_of_nat 27) "".

Definition style (text : string) (fg : colour) : string :=
  ESC +:+ "[" +:+ ansi_code fg +:+ "m" +:+ text +:+ ESC +:+ "[0m".

(** *** Parameter declarations *)

Inductive ParamType :=
| STRING
| Choice (choices : list string)
| BOOL.                                   (* an [is_flag=True] option *)

Inductive param_kind := IsArgument | IsOption.

Record Param := mkParam {
  kind : param_kind;
  name : string;              (* the keyword under which the callback gets it *)
  decls : list string;        (* the flags as declared, for error messages *)
  type : ParamType;
  default : option string
}.

(** An argument without a default is required; options are not. *)
Definition required (p : Param) : bool :=
  match kind p, default p with
  | IsArgument, None => true
  | _, _ => false
  end.

(** The name of an option is derived from its flags: the flag with the
    longest prefix (the first one among equals), its prefix dropped, dashes
    turned into underscores, lower-cased.  None of the declarations of this
    program names the parameter explicitly or declares a secondary flag,
    so those two branches of click's rule are left out. *)
Definition is_alnum (a : Ascii.ascii) : bool :=
  let n := Ascii.nat_of_ascii a in
  (Nat.leb 48 n && Nat.leb n 57) || (Nat.leb 65 n && Nat.leb n 90)
  || (Nat.leb 97 n && Nat.leb n 122).

Definition split_opt (opt : string) : string * string :=
  match opt with
  | EmptyString => ("", "")
  | String a rest =>
      if is_alnum a then ("", opt)
      else match rest with
           | String b rest' =>
               if Ascii.eqb a b then (String a (String b ""), rest')
               else (String a "", rest)
           | EmptyString => (String a "", rest)
           end
  end.

Fixpoint longest_prefix_first (l : list (string * string))
  : option (string * string) :=
  match l with
  | [] => None
  | x :: l' =>
      match longest_prefix_first l' with
      | Some y =>
          if Nat.ltb (String.length (fst x)) (String.length (fst y))
          then Some y else Some x
      | None => Some x
      end
  end.

Definition lower_ascii (a : Ascii.ascii) : Ascii.ascii :=
  let n := Ascii.nat_of_ascii a in
  if Nat.leb 65 n && Nat.leb n 90 then Ascii.ascii_of_nat (n + 32) else a.

Fixpoint to_identifier (s : string) : string :=
  match s with
  | EmptyString => EmptyString
  | String a s' =>
      String (if Ascii.eqb a "-"%char then "_"%char else lower_ascii a)
             (to_identifier s')
  end.

Definition option_name (flags : list string) : string :=
  match longest_prefix_first (map split_opt flags) with
  | Some (_, n) => to_identifier n
  | None => ""
  end.

(** [click.argument(name)], [click.argument(name, default=d)]. *)
Definition argument (n : string) (d : option string) : Param :=
  {| kind := IsArgument; name := to_identifier n; decls := [n];
     type := STRING; default := d |}.

(** [click.option] with flags, [default=d] and [type=ty]. *)
Definition option_ (flags : list string) (d : string) (ty : ParamType)
  : Param :=
  {| kind := IsOption; name := option_name flags; decls := flags;
     type := ty; default := Some d |}.

(** [click.option] with flags and [is_flag=True]; the default is [False]. *)
Definition flag (flags : list string) : Param :=
  {| kind := IsOption; name := option_name flags; decls := flags;
     type := BOOL; default := None |}.

(** *** The parsed command line *)

(** What click's option parser hands to the parameters of a command: the
    options in the order they were met, each under the name of the
    parameter it belongs to, and the positional words that remain.  An
    option that takes a value comes with the text given for it; a flag
    comes alone. *)
Inductive opt_token :=
| OptValue (dest : string) (raw : string)
| OptFlag (dest : string).

Record ParsedArgs := mkParsedArgs {
  opts : list opt_token;
  largs : list string
}.

Definition is_argument (p : Param) : bool :=
  match kind p with IsArgument => true | IsOption => false end.

Definition is_flag (p : Param) : bool :=
  match type p with BOOL => true | _ => false end.

(** Does the token belong to the parameter? *)
Definition matches (p : Param) (t : opt_token) : bool :=
  match kind p, t with
  | IsOption, OptValue d _ => negb (is_flag p) && String.eqb d (name p)
  | IsOption, OptFlag d => is_flag p && String.eqb d (name p)
  | IsArgument, _ => false
  end.

(** The text stored for a value option: a later occurrence overwrites an
    earlier one. *)
Fixpoint opt_value (p : Param) (ts : list opt_token) : option string :=
  match ts with
  | [] => None
  | t :: ts' =>
      match opt_value p ts' with
      | Some v => Some v
      | None =>
          match t with
          | OptValue _ raw => if matches p t then Some raw else None
          | OptFlag _ => None
          end
      end
  end.

(** Positional words go to the arguments in declaration order, one each. *)
Fixpoint arg_value (params : list Param) (words : list string)
         (n : string) : option string :=
  match params with
  | [] => None
  | p :: params' =>
      match kind p with
      | IsArgument =>
          if String.eqb (name p) n then head words
          else arg_value params' (tail words) n
      | IsOption => arg_value params' words n
      end
  end.

Definition extra_args (params : list Param) (words : list string)
  : list string :=
  drop (length (filter (fun p => is_argument p = true) params)) words.

(** *** Processing the parameters of a command *)

(** The text a parameter receives: from the command line if it is there,
    from the declared default otherwise.  (No parameter of this program
    declares an environment variable or a prompt.) *)
Definition consume_value (params : list Param) (pa : ParsedArgs)
           (p : Param) : option string :=
  let given :=
    match kind p with
    | IsOption => opt_value p (opts pa)
    | IsArgument => arg_value params (largs pa) (name p)
    end in
  match given with
  | Some raw => Some raw
  | None => default p
  end.

Definition check_required (p : Param) : usage_error + value :=
  if required p then inl (MissingParameter (name p)) else inr VNone.

(** [Parameter.handle_parse_result]: fetch the value, convert it with the
    declared type, insist on required parameters.  [Choice.convert]
    accepts exactly the listed strings and otherwise fails with an error
    that carries the list. *)
Definition handle_parse_result (params : list Param) (pa : ParsedArgs)
           (p : Param) : usage_error + value :=
  match type p with
  | BOOL => inr (VBool (existsb (matches p) (opts pa)))
  | STRING =>
      match consume_value params pa p with
      | Some raw => inr (VStr raw)
      | None => check_required p
      end
  | Choice choices =>
      match consume_value params pa p with
      | Some raw =>
          if bool_decide (raw ∈ choices) then inr (VStr raw)
          else inl (BadChoice (name p) (decls p) raw choices)
      | None => check_required p
      end
  end.

(** The options met on the command line, in the order of their first
    occurrence. *)
Fixpoint invoked (params : list Param) (ts : list opt_token) : list Param :=
  match ts with
  | [] => []
  | t :: ts' =>
      match List.find (fun p => matches p t) params with
      | Some p =>
          p :: filter (fun q => name q ≠ name p) (invoked params ts')
      | None => invoked params ts'
      end
  end.

(** [iter_params_for_processing]: parameters are processed in the order
    in which the parser met them, that is the options given on the command
    line first, then the arguments; the options that were not given follow
    in declaration order.  (The only eager parameter of these commands is
    the built-in help flag, which is not part of a [ParsedArgs].) *)
Definition processing_order (params : list Param) (pa : ParsedArgs)
  : list Param :=
  let met := invoked params (opts pa) in
  met
  ++ filter (fun p => is_argument p = true) params
  ++ filter (fun p => is_argument p = false ∧ name p ∉ (name <$> met)) params.

Fixpoint process_params (params : list Param) (pa : ParsedArgs)
         (todo : list Param) (kw : gmap string value)
  : usage_error + gmap string value :=
  match todo with
  | [] => inr kw
  | p :: todo' =>
      match handle_parse_result params pa p with
      | inl e => inl e
      | inr v => process_params params pa todo' (<[name p := v]> kw)
      end
  end.

(** [Command.parse_args]: process every parameter, then refuse positional
    words nobody took. *)
Definition parse_args (params : list Param) (pa : ParsedArgs)
  : usage_error + gmap string value :=
  match process_params params pa (processing_order params pa) ∅ with
  | inl e => inl e
  | inr kw =>
      match extra_args params (largs pa) with
      | [] => inr kw
      | extra => inl (ExtraArguments extra)
      end
  end.

(** *** Commands and groups *)

Record Command := mkCommand {
  cmd_name : string;
  params : list Param;
  callback : Context -> gmap string value -> M unit
}.

(** [Command.make_context] followed by [Command.invoke]: the command line
    is processed first; only when that succeeds is the callback called,
    with the context of the sub-command and the processed values as
    keyword arguments. *)
Definition run_command (cmd : Command) (parent : Context) (pa : ParsedArgs)
  : M unit :=
  match parse_args (params cmd) pa with
  | inl e => raise (UsageError e)
  | inr kw =>
      callback cmd {| info_name := cmd_name cmd; obj := obj parent |} kw
  end.

(** A group: its own callback, which may update the group context, and
    the registered sub-commands. *)
Record Group := mkGroup {
  group_callback : Context -> M Context;
  commands : list Command
}.

(** One run of the program: the name it was started under, the
    sub-command named on the command line and what the parser of that
    sub-command found.  (A command line without a sub-command, or with the
    built-in [--help] or [--version], never reaches a sub-command and is not
    an [Invocation].) *)
Record Invocation := mkInvocation {
  prog_name : string;
  command : string;
  args : ParsedArgs
}.

Definition resolve_command (g : Group) (n : string) : M Command :=
  match List.find (fun c => String.eqb (cmd_name c) n) (commands g) with
  | Some c => ret c
  | None => raise (UsageError (NoSuchCommand n))
  end.

(** [MultiCommand.invoke]: resolve the sub-command, run the callback of
    the group, then create the context of the sub-command and invoke it. *)
Definition group_invoke (g : Group) (ctx : Context) (inv : Invocation)
  : M unit :=
  cmd <- resolve_command g (command inv) ;;
  ctx' <- group_callback g ctx ;;
  run_command cmd ctx' (args inv).

(** [BaseCommand.main] in standalone mode (the default, and the mode
    [cli(obj=...)] runs in).  A command that returns ends in [ctx.exit()],
    that is [Exit(0)].  The inner [try] turns [KeyboardInterrupt] and
    [EOFError] into [Abort] after an empty line on the error stream, and
    shows a click exception and exits with its exit code, and on a broken
    pipe exits with 1 without a word; the outer [try] turns [Exit] into
    [sys.exit] and [Abort] into the message [Aborted!] on the error stream
    and [sys.exit(1)].  Every other exception passes through. *)
Definition standalone_inner (con : console) (e : exn) : M unit :=
  match e with
  | KeyboardInterrupt | EOFError => echo con "" true ;; raise Abort
  | UsageError d => emit (ShowUsage d) ;; sys_exit 2
  | ClickException code message =>
      echo con ("Error: " +:+ message) true ;; sys_exit code
  | BrokenPipe => sys_exit 1
  | _ => raise e
  end.

Definition standalone_outer (con : console) (e : exn) : M unit :=
  match e with
  | Exit code => sys_exit code
  | Abort => echo con "Aborted!" true ;; sys_exit 1
  | _ => raise e
  end.

Definition main (con : console) (g : Group) (o : option object)
           (inv : Invocation) : M unit :=
  try_except
    (try_except
       (group_invoke g {| info_name := prog_name inv; obj := o |} inv ;;
        raise (Exit 0))
       (standalone_inner con))
    (standalone_outer con).

(** *** Interrupts *)

(** The user may interrupt at any moment.  An interrupt that arrives while
    a handler runs is the handler's outcome; the others are placed by
    [signals], one at most in each stretch of a run: before click enters
    its [try]; while the command runs inside it, before the event of the
    given index; while one of click's own [except] blocks is at work; and
    while an [except] clause of the caller is. *)
Record signals := mkSignals {
  at_start : bool;
  in_command : option nat;
  in_click : option nat;
  in_caller : option nat
}.

Definition no_signals : signals :=
  {| at_start := false; in_command := None; in_click := None;
     in_caller := None |}.

(** The computation [m], cut short by an interrupt before its event of
    index [n]; an index beyond the events of [m] comes too late for it. *)
Definition interrupted {A} (k : option nat) (m : M A) : M A :=
  match k with
  | Some n =>
      if Nat.leb n (length m.1) then (take n m.1, Raised KeyboardInterrupt)
      else m
  | None => m
  end.

(** The classes for which one of click's [except] blocks runs. *)
Definition click_catches (e : exn) : bool :=
  match e with
  | KeyboardInterrupt | EOFError | UsageError _ | ClickException _ _
  | BrokenPipe | Exit _ | Abort => true
  | _ => false
  end.

(** What the two [try] statements of click do with an exception that left
    the inner one. *)
Definition standalone_handling (con : console) (e : exn) : M unit :=
  try_except (standalone_inner con e) (standalone_outer con).

(** [BaseCommand.main] again, with the interrupts in their places.  An
    interrupt inside the inner [try] is one more [KeyboardInterrupt] for
    click to handle; one that arrives before, or while click handles an
    exception, leaves click as it is. *)
Definition main_signalled (sig : signals) (con : console) (g : Group)
           (o : option object) (inv : Invocation) : M unit :=
  if at_start sig then raise KeyboardInterrupt
  else
    try_except
      (interrupted (in_command sig)
         (group_invoke g {| info_name := prog_name inv; obj := o |} inv ;;
          raise (Exit 0)))
      (fun e =>
         if click_catches e
         then interrupted (in_click sig) (standalone_handling con e)
         else raise e).

End Click.
Export Click.

(** ** info_tech_cli/cli.py *)

Module Cli.

(** The permitted values of [--difficulty] and [--language], lines 47, 50. *)
Definition difficulty_choices : list string :=
  ["beginner"; "intermediate"; "advanced"].

Definition language_choices : list string := ["ru"; "en"].

(** The two options of [create] with a [click.Choice] type, lines 46-51. *)
Definition difficulty_option : Param :=
  option_ ["--difficulty"; "-d"] "beginner" (Choice difficulty_choices).

Definition language_option : Param :=
  option_ ["--language"; "-l"] "ru" (Choice language_choices).

(** The three lines printed when no usable token is found, lines 36-38. *)
Definition token_warning : list string :=
  [ style "Warning: GITHUB_TOKEN not found in environment" yellow;
    "Some features may not work properly.";
    "Please set GITHUB_TOKEN in your .env file." ].

(** The name on the command line is that of a registered sub-command. *)
Definition registered (n : string) : Prop :=
  n ∈ ["create"; "delete"; "validate"; "version"].

(** Handlers to try the program with: one that returns, one that fails
    with the given error, one that needs the token. *)
Definition create_ok :
  environ -> Context -> value -> value -> value -> value -> value ->
  value -> result unit := fun _ _ _ _ _ _ _ _ => Ok tt.

Definition delete_raising (e : exn) :
  environ -> Context -> value -> value -> value -> result unit :=
  fun _ _ _ _ _ => Raised e.

Definition delete_needs_token :
  environ -> Context -> value -> value -> value -> result unit :=
  fun env _ _ _ _ =>
    if truthy (getenv env "GITHUB_TOKEN") then Ok tt
    else Raised (PyError "GITHUB_TOKEN is required").

(** Two encodings of standard output to try the program with: UTF-8,
    which encodes every text, and Latin-1, which encodes none of the three
    texts that [cli.py] writes to standard output and that are not ASCII:
    the two lines of [validate] and the cancellation notice of [main].
    The codec names the first stretch of characters it cannot encode. *)
Definition utf8_console : console :=
  {| encodes := fun _ => true; encode_error := fun _ => "" |}.

Definition latin1_console : console :=
  {| encodes := fun _ => false;
     encode_error := fun message =>
       if String.prefix "🔍" message
       then "'latin-1' codec can't encode character '\U0001f50d' in position 0: ordinal not in range(256)"
       else if String.prefix "⚠️" message
       then "'latin-1' codec can't encode characters in position 0-1: ordinal not in range(256)"
       else "'latin-1' codec can't encode characters in position 1-2: ordinal not in range(256)" |}.

Section Handlers.

(** The two handlers imported from [info_tech_cli.commands]: what a call
    returns or raises, given the environment variables of the process,
    which a handler is free to read.  Their code is not part of this
    development. *)
Variable create_module :
  environ -> Context -> value -> value -> value -> value -> value ->
  value -> result unit.
Variable delete_module :
  environ -> Context -> value -> value -> value -> result unit.

(** [str(e)] for the exception classes that carry no message of their
    own in [exn]. *)
Variable str_builtin : exn -> string.

(** The encoding of standard output. *)
Variable con : console.

Definition str (e : exn) : string :=
  match e with
  | PyError message => message
  | BaseError message => message
  | ClickException _ message => message
  | _ => str_builtin e
  end.

(** A call of a handler: the call is recorded, and the outcome is the
    handler's. *)
Definition call (h : string) (ctx : Context) (args : list value)
           (r : result unit) : M unit :=
  ([Call h ctx args], r).

(** [def cli(ctx)], lines 20-38.  [env] is [os.environ] as it is when
    the group runs, that is after [load_dotenv()] of line 11. *)
Definition cli (env : environ) (ctx : Context) : M Context :=
  let ctx := ensure_object_dict ctx in
  let github_token := getenv env "GITHUB_TOKEN" in
  (if negb (truthy github_token) then
     echo con
          (style "Warning: GITHUB_TOKEN not found in environment" yellow)
          false ;;
     echo con "Some features may not work properly." false ;;
     echo con "Please set GITHUB_TOKEN in your .env file." false
   else ret tt) ;;
  ret ctx.

(** [def create(...)], line 65. *)
Definition create (env : environ) (ctx : Context)
           (module_name template category difficulty language
              interactive : value) : M unit :=
  call "create_module" ctx
       [module_name; template; category; difficulty; language; interactive]
       (create_module env ctx module_name template category difficulty
                      language interactive).

(** [def delete(...)], line 83. *)
Definition delete (env : environ) (ctx : Context)
           (module_name force remove_repo : value) : M unit :=
  call "delete_module" ctx [module_name; force; remove_repo]
       (delete_module env ctx module_name force remove_repo).

Definition format_value (v : value) : string :=
  match v with
  | VNone => "None"
  | VStr s => s
  | VBool true => "True"
  | VBool false => "False"
  end.

(** [def validate(path)], lines 96-97. *)
Definition validate (path : value) : M unit :=
  echo con ("🔍 Validating module at: " +:+ format_value path) false ;;
  echo con "⚠️  Validation feature coming soon..." false.

(** [def version()], lines 102-104. *)
Definition version : M unit :=
  echo con "info_tech_cli version 0.1.0" false ;;
  echo con "InfoTech.io Educational Platform CLI" false ;;
  echo con "Author: A1eksMa <a1ex_ma@mail.ru>" false.

(** Calling a Python function with keyword arguments it does not get is
    a [TypeError]. *)
Definition missing_keyword : M unit :=
  raise (PyError "TypeError: missing required argument").

(** The decorators of lines 40-54, 67-73, 85-86 and 99: the parameters
    of each command, and the callback applied to the keyword arguments
    click passes ([click.pass_context] adds the context in front). *)
Definition create_command (env : environ) : Command :=
  {| cmd_name := "create";
     params :=
       [ argument "module_name" None;
         option_ ["--template"; "-t"] "module-basic" STRING;
         option_ ["--category"; "-c"] "programming" STRING;
         difficulty_option;
         language_option;
         flag ["--interactive"; "-i"] ];
     callback := fun ctx kw =>
       match kw !! "module_name", kw !! "template", kw !! "category",
             kw !! "difficulty", kw !! "language", kw !! "interactive"
       with
       | Some module_name, Some template, Some category,
         Some difficulty, Some language, Some interactive =>
           create env ctx module_name template category difficulty
                  language interactive
       | _, _, _, _, _, _ => missing_keyword
       end |}.

Definition delete_command (env : environ) : Command :=
  {| cmd_name := "delete";
     params :=
       [ argument "module_name" None;
         flag ["--force"; "-f"];
         flag ["--remove-repo"] ];
     callback := fun ctx kw =>
       match kw !! "module_name", kw !! "force", kw !! "remove_repo" with
       | Some module_name, Some force, Some remove_repo =>
           delete env ctx module_name force remove_repo
       | _, _, _ => missing_keyword
       end |}.

Definition validate_command : Command :=
  {| cmd_name := "validate";
     params := [ argument "path" (Some ".") ];
     callback := fun _ kw =>
       match kw !! "path" with
       | Some path => validate path
       | None => missing_keyword
       end |}.

Definition version_command : Command :=
  {| cmd_name := "version";
     params := [];
     callback := fun _ _ => version |}.

(** The group built by [@click.group()] and the four [@cli.command()]
    registrations. *)
Definition cli_group (env : environ) : Group :=
  {| group_callback := cli env;
     commands :=
       [create_command env; delete_command env; validate_command;
        version_command] |}.

Definition LF : string := String (Ascii.ascii_of_nat 10) "".

Definition cancelled_notice : string :=
  LF +:+ "⚠️  Operation cancelled by user".

Definition error_message (e : exn) : string := "❌ Error: " +:+ str e.

(** The two [except] clauses of [main], lines 110-115. *)
Definition main_except (e : exn) : M unit :=
  match e with
  | KeyboardInterrupt => echo con cancelled_notice false ;; sys_exit 1
  | _ =>
      if is_Exception e then echo con (error_message e) true ;; sys_exit 1
      else raise e
  end.

(** [def main()], lines 106-115. *)
Definition main (env : environ) (inv : Invocation) : M unit :=
  try_except (Click.main con (cli_group env) (Some (Dict ∅)) inv)
             main_except.

(** A run of the program, as the operating system sees it. *)
Definition run (env : environ) (inv : Invocation) : trace * termination :=
  let '(t, r) := main env inv in (t, terminate r).

(** What runs inside the inner [try] of click: the command group, and
    [ctx.exit()] after it. *)
Definition command_phase (env : environ) (inv : Invocation) : M unit :=
  group_invoke (cli_group env)
               {| info_name := prog_name inv; obj := Some (Dict ∅) |} inv ;;
  raise (Exit 0).

(** The classes one of the two [except] clauses of [main] matches. *)
Definition main_catches (e : exn) : bool :=
  match e with
  | KeyboardInterrupt => true
  | _ => is_Exception e
  end.

(** [main] with the interrupts of [sig] in their places; one that arrives
    while an [except] clause of [main] is at work is caught by nobody. *)
Definition main_signalled (sig : signals) (env : environ)
           (inv : Invocation) : M unit :=
  try_except
    (Click.main_signalled sig con (cli_group env) (Some (Dict ∅)) inv)
    (fun e =>
       if main_catches e then interrupted (in_caller sig) (main_except e)
       else raise e).

Definition run_signalled (sig : signals) (env : environ)
           (inv : Invocation) : trace * termination :=
  let '(t, r) := main_signalled sig env inv in (t, terminate r).

(** The outcome of the handler call an event records. *)
Definition handler_outcome (env : environ) (ev : event)
  : option (result unit) :=
  match ev with
  | Call h ctx [a1; a2; a3; a4; a5; a6] =>
      if String.eqb h "create_module"
      then Some (create_module env ctx a1 a2 a3 a4 a5 a6) else None
  | Call h ctx [a1; a2; a3] =>
      if String.eqb h "delete_module"
      then Some (delete_module env ctx a1 a2 a3) else None
  | _ => None
  end.

(** What a registered sub-command does: it rejects the command line, or
    it calls its handler once, in a context that inherits [obj], or it
    prints its own fixed lines. *)
Definition rejects (m : M unit) : Prop :=
  ∃ d, m = ([], Raised (UsageError d)).

Definition calls_handler (env : environ) (sub : Context) (m : M unit)
  : Prop :=
  (∃ a1 a2 a3 a4 a5 a6,
      m = ([Call "create_module" sub [a1; a2; a3; a4; a5; a6]],
           create_module env sub a1 a2 a3 a4 a5 a6))
  ∨ (∃ a1 a2 a3,
      m = ([Call "delete_module" sub [a1; a2; a3]],
           delete_module env sub a1 a2 a3)).

Definition prints_only (m : M unit) : Prop :=
  (∃ v, m = validate v) ∨ m = version.

(** What the two error boundaries, click's and then [main]'s, make of the
    outcome of the command group. *)
Definition boundary (r : result unit) : trace * termination :=
  let '(t, r') :=
    try_except
      (try_except
         (try_except (([], r) ;; raise (Exit 0)) (standalone_inner con))
         (standalone_outer con))
      main_except in
  (t, terminate r').

End Handlers.

End Cli.

(** ** The declarations of [cli.py], one by one *)

Module Decl.

(** Lines 41 and 68, 42-45, 52, 69-72 and 86. *)
Definition module_name_argument : Param := argument "module_name" None.

Definition template_option : Param :=
  option_ ["--template"; "-t"] "module-basic" STRING.

Definition category_option : Param :=
  option_ ["--category"; "-c"] "programming" STRING.

Definition interactive_flag : Param := flag ["--interactive"; "-i"].

Definition force_flag : Param := flag ["--force"; "-f"].

Definition remove_repo_flag : Param := flag ["--remove-repo"].

Definition path_argument : Param := argument "path" (Some ".").

#[global] Instance opt_token_eq_dec : EqDecision opt_token.
Proof. solve_decision. Defined.

(** The text an option ends up with: the last one given for it on the
    command line, its declared default otherwise. *)
Definition option_text (p : Param) (ts : list opt_token) : string :=
  match opt_value p ts with
  | Some raw => raw
  | None => match default p with Some d => d | None => "" end
  end.

(** The parameters of a command are told apart by their names. *)
Definition distinct_names (l : list Param) : Prop :=
  ∀ p q, p ∈ l → q ∈ l → name p = name q → p = q.

(** How many positional words a command takes. *)
Definition arity (cmd : Command) : nat :=
  length (filter (fun p => is_argument p = true) (params cmd)).

End Decl.

(** ** setup.py *)

Module Setup.

(** A Python [str] is a sequence of code points. *)
Definition char := N.
Definition pystr := list char.

(** [str.isspace] on one character: the code points Python counts as
    whitespace. *)
Definition isspace (c : char) : bool :=
  bool_decide
    (c ∈ [0x09; 0x0A; 0x0B; 0x0C; 0x0D; 0x1C; 0x1D; 0x1E; 0x1F; 0x20; 0x85;
          0xA0; 0x1680; 0x2000; 0x2001; 0x2002; 0x2003; 0x2004; 0x2005;
          0x2006; 0x2007; 0x2008; 0x2009; 0x200A; 0x2028; 0x2029; 0x202F;
          0x205F; 0x3000]%N).

(** [s.lstrip()], [s.rstrip()] and [s.strip()] without argument. *)
Fixpoint lstrip (s : pystr) : pystr :=
  match s with
  | [] => []
  | c :: s' => if isspace c then lstrip s' else s
  end.

Fixpoint rstrip (s : pystr) : pystr :=
  match s with
  | [] => []
  | c :: s' =>
      match rstrip s' with
      | [] => if isspace c then [] else [c]
      | r => c :: r
      end
  end.

Definition strip (s : pystr) : pystr := rstrip (lstrip s).

(** The character [#]. *)
Definition hash : char := 0x23%N.

(** [line.startswith("#")]. *)
Definition startswith_hash (line : pystr) : bool :=
  match line with
  | c :: _ => bool_decide (c = hash)
  | [] => false
  end.

(** Truth value of a [str]: the empty one is falsy. *)
Definition nonempty (s : pystr) : bool :=
  match s with [] => false | _ :: _ => true end.

(** Line 11: the list comprehension over the lines the file object
    yields. *)
Definition requirements (fh : list pystr) : list pystr :=
  strip <$>
    filter (fun line => nonempty (strip line) && negb (startswith_hash line)
                        = true) fh.

End Setup.

(** * Properties *)

(** ** Exit statuses *)

(** A code that fits in a byte is the exit status; the others wrap. *)
Lemma exit_status_byte (code : Z) :
  (0 <= code < 256)%Z → exit_status code = code.
Proof.
  intros H. unfold exit_status.
  replace (- 2 ^ 63 <=? code)%Z with true by (symmetry; apply Z.leb_le; lia).
  replace (code <? 2 ^ 63)%Z with true by (symmetry; apply Z.ltb_lt; lia).
  cbn [andb]. apply Z.mod_small. lia.
Qed.

Lemma exit_status_range (code : Z) : (0 <= exit_status code < 256)%Z.
Proof.
  unfold exit_status. destruct (_ && _); [|lia].
  apply Z.mod_pos_bound. lia.
Qed.

(** ** Processing the parameters of a command *)

Section Processing.

Variables (ps : list Param) (pa : ParsedArgs).

Lemma process_params_app l1 l2 kw :
  process_params ps pa (l1 ++ l2) kw =
  match process_params ps pa l1 kw with
  | inl e => inl e
  | inr kw' => process_params ps pa l2 kw'
  end.
Proof.
  revert kw. induction l1 as [|p l1 IH]; intros kw; simpl; [done|].
  destruct (handle_parse_result ps pa p); [done|apply IH].
Qed.

(** An error of the processing is the error of one of the parameters. *)
Lemma process_params_inl l kw e :
  process_params ps pa l kw = inl e →
  ∃ q, q ∈ l ∧ handle_parse_result ps pa q = inl e.
Proof.
  revert kw. induction l as [|p l IH]; intros kw; simpl; [done|].
  destruct (handle_parse_result ps pa p) as [e'|v] eqn:Hp.
  - intros [= <-]. exists p. split; [left|done].
  - intros H. destruct (IH _ H) as (q & Hq & He).
    exists q. split; [by right|done].
Qed.

(** As soon as one parameter is rejected, the processing fails. *)
Lemma process_params_fails l kw p e0 :
  p ∈ l → handle_parse_result ps pa p = inl e0 →
  ∃ e, process_params ps pa l kw = inl e.
Proof.
  revert kw. induction l as [|q l IH]; intros kw Hin Hp.
  - by apply elem_of_nil in Hin.
  - simpl. destruct (handle_parse_result ps pa q) as [e'|v] eqn:Hq; [by eexists|].
    apply elem_of_cons in Hin as [->|Hin]; [congruence|]. by apply IH.
Qed.

(** A successful processing binds the name of every parameter it went
    through, and keeps what was bound before. *)
Lemma process_params_bound l kw kw' :
  process_params ps pa l kw = inr kw' →
  (∀ p, p ∈ l → is_Some (kw' !! name p)) ∧
  (∀ n, is_Some (kw !! n) → is_Some (kw' !! n)).
Proof.
  revert kw. induction l as [|q l IH]; intros kw; simpl.
  - intros [= <-]. split; [|done]. intros p Hp. by apply elem_of_nil in Hp.
  - destruct (handle_parse_result ps pa q) as [e'|v] eqn:Hq; [done|].
    intros H. destruct (IH _ H) as [IH1 IH2]. split.
    + intros p [->|Hp]%elem_of_cons; [|by apply IH1].
      apply IH2. rewrite lookup_insert_eq. by eexists.
    + intros n Hn. apply IH2. rewrite lookup_insert.
      case_decide; [by eexists|done].
Qed.

Lemma invoked_elem ts q :
  q ∈ invoked ps ts → q ∈ ps ∧ kind q = IsOption.
Proof.
  induction ts as [|t ts IH]; simpl; [by intros ?%elem_of_nil|].
  destruct (List.find (λ p, matches p t) ps) as [p|] eqn:Hfind; [|done].
  intros [->|Hq]%elem_of_cons.
  - apply find_some in Hfind as [Hin Hm]. split; [by apply list_elem_of_In|].
    unfold matches in Hm. by destruct (kind p).
  - apply list_elem_of_filter in Hq as [_ Hq]. by apply IH.
Qed.

(** Two parameters that take the same token bear the same name. *)
Lemma matches_name p q t :
  matches p t = true → matches q t = true → name q = name p.
Proof.
  unfold matches. destruct (kind p), (kind q), t; try done.
  - intros [_ Hp%String.eqb_eq]%andb_true_iff [_ Hq%String.eqb_eq]%andb_true_iff.
    congruence.
  - intros [_ Hp%String.eqb_eq]%andb_true_iff [_ Hq%String.eqb_eq]%andb_true_iff.
    congruence.
Qed.

(** An option that occurs on the command line is among the invoked ones,
    up to its name. *)
Lemma invoked_name ts p t :
  p ∈ ps → t ∈ ts → matches p t = true →
  ∃ q, q ∈ invoked ps ts ∧ name q = name p.
Proof.
  intros Hp. induction ts as [|t' ts IH]; [by intros ?%elem_of_nil|].
  intros Hin Hm. simpl.
  destruct (List.find (λ p, matches p t') ps) as [p'|] eqn:Hfind.
  - destruct (decide (name p' = name p)) as [Heq|Hne].
    + exists p'. split; [left|done].
    + apply elem_of_cons in Hin as [->|Hin].
      * apply find_some in Hfind as [_ Hm'].
        destruct Hne. by apply (matches_name p p' t').
      * destruct (IH Hin Hm) as (q & Hq & Hname). exists q. split; [|done].
        right. apply list_elem_of_filter. split; [congruence|done].
  - apply elem_of_cons in Hin as [->|Hin]; [|by apply IH].
    apply list_elem_of_In in Hp.
    by rewrite (find_none _ _ Hfind p Hp) in Hm.
Qed.

Lemma opt_value_Some p ts v :
  opt_value p ts = Some v → ∃ t, t ∈ ts ∧ matches p t = true.
Proof.
  revert v. induction ts as [|t ts IH]; intros v; simpl; [done|].
  destruct (opt_value p ts) as [v'|] eqn:Hv.
  - intros _. destruct (IH v') as (t' & Hin & Hm); [done|].
    exists t'. split; [by right|done].
  - destruct t as [d raw|d]; [|done].
    destruct (matches p (OptValue d raw)) eqn:Hm; [|done].
    intros _. exists (OptValue d raw). split; [left|done].
Qed.

Lemma processing_order_elem q :
  q ∈ processing_order ps pa → q ∈ ps.
Proof.
  unfold processing_order.
  intros [Hq|[Hq|Hq]%elem_of_app]%elem_of_app.
  - by apply invoked_elem in Hq as [? _].
  - by apply list_elem_of_filter in Hq as [_ ?].
  - by apply list_elem_of_filter in Hq as [_ ?].
Qed.

(** Every declared parameter is processed, up to its name. *)
Lemma processing_order_names p :
  p ∈ ps → ∃ q, q ∈ processing_order ps pa ∧ name q = name p.
Proof.
  intros Hp. unfold processing_order.
  destruct (is_argument p) eqn:Harg.
  - exists p. split; [|done]. apply elem_of_app. right. apply elem_of_app. left.
    by apply list_elem_of_filter.
  - destruct (decide (name p ∈ name <$> invoked ps (opts pa))) as [Hin|Hnin].
    + apply list_elem_of_fmap in Hin as (q & Hname & Hq).
      exists q. split; [|done]. apply elem_of_app. by left.
    + exists p. split; [|done]. apply elem_of_app. right. apply elem_of_app.
      right. by apply list_elem_of_filter.
Qed.

(** When the command line is accepted, the callback gets a value for every
    declared parameter. *)
Lemma parse_args_bound kw p :
  parse_args ps pa = inr kw → p ∈ ps → is_Some (kw !! name p).
Proof.
  unfold parse_args.
  destruct (process_params ps pa (processing_order ps pa) ∅) as [e|kw'] eqn:H;
    [done|].
  destruct (extra_args ps (largs pa)); [|done].
  intros [= <-] Hp.
  destruct (processing_order_names p Hp) as (q & Hq & <-).
  destruct (process_params_bound _ _ _ H) as [Hb _]. by apply Hb.
Qed.

End Processing.

(** ** The program *)

Import Cli.

Section Program.

Variable create_module :
  environ -> Context -> value -> value -> value -> value -> value ->
  value -> result unit.
Variable delete_module :
  environ -> Context -> value -> value -> value -> result unit.
Variable str_builtin : exn -> string.
Variable con : console.
Variable env : environ.

Local Abbreviation cli := (cli con).
Local Abbreviation validate := (validate con).
Local Abbreviation version := (version con).
Local Abbreviation cli_group := (cli_group create_module delete_module con).
Local Abbreviation run := (run create_module delete_module str_builtin con).
Local Abbreviation boundary := (boundary str_builtin con).
Local Abbreviation main_except := (main_except str_builtin con).
Local Abbreviation main := (main create_module delete_module str_builtin con).
Local Abbreviation command_phase :=
  (command_phase create_module delete_module con).
Local Abbreviation run_signalled :=
  (run_signalled create_module delete_module str_builtin con).
Local Abbreviation handler_outcome :=
  (handler_outcome create_module delete_module env).
Local Abbreviation prints_only := (prints_only con).
Local Abbreviation calls_handler :=
  (calls_handler create_module delete_module env).
Local Abbreviation validate_command := (validate_command con).
Local Abbreviation version_command := (version_command con).
Local Abbreviation standalone_inner := (standalone_inner con).
Local Abbreviation standalone_outer := (standalone_outer con).

(** The lines of [version] and the warning of the group are plain ASCII,
    which every encoding of standard output takes; the two lines of
    [validate] are not. *)
Lemma version_eq :
  version =
  ([Echo Stdout "info_tech_cli version 0.1.0";
    Echo Stdout "InfoTech.io Educational Platform CLI";
    Echo Stdout "Author: A1eksMa <a1ex_ma@mail.ru>"], Ok tt).
Proof. reflexivity. Qed.

Lemma validate_eq v :
  validate v =
  let line := "🔍 Validating module at: " +:+ format_value v in
  let notice := "⚠️  Validation feature coming soon..." in
  if encodes con line then
    if encodes con notice
    then ([Echo Stdout line; Echo Stdout notice], Ok tt)
    else ([Echo Stdout line], Raised (PyError (encode_error con notice)))
  else ([], Raised (PyError (encode_error con line))).
Proof.
  unfold Cli.validate, echo. cbn.
  destruct (encodes con _); [|done]. by destruct (encodes con _).
Qed.

Lemma validate_events v ev :
  ev ∈ (validate v).1 →
  ev = Echo Stdout ("🔍 Validating module at: " +:+ format_value v)
  ∨ ev = Echo Stdout "⚠️  Validation feature coming soon...".
Proof.
  rewrite validate_eq. cbv zeta.
  destruct (encodes con _); [destruct (encodes con _)|]; cbn [fst];
    intros Hev; repeat (apply elem_of_cons in Hev as [->|Hev]); eauto;
    by apply elem_of_nil in Hev.
Qed.

(** What the group callback prints. *)
Lemma cli_eq ctx :
  cli env ctx =
  (if truthy (getenv env "GITHUB_TOKEN") then []
   else Echo Stdout <$> token_warning,
   Ok (ensure_object_dict ctx)).
Proof. unfold cli. by destruct (truthy _). Qed.

Lemma ensure_object_dict_obj ctx :
  ∃ d, obj (ensure_object_dict ctx) = Some (Dict d).
Proof.
  unfold ensure_object_dict. destruct ctx as [n [[d|r]|]]; simpl; by eexists.
Qed.

(** The two boundaries add their events after those of the command group
    and decide how the process ends. *)
Lemma boundary_eq t r :
  (let '(t', r') :=
     try_except
       (try_except
          (try_except ((t, r) ;; raise (Exit 0)) standalone_inner)
          standalone_outer)
       main_except in
   (t', terminate r')) = (t ++ (boundary r).1, (boundary r).2).
Proof.
  destruct r as [[]|e]; [|destruct e]; simpl; rewrite ?app_nil_r; try done.
  all: by rewrite <- ?app_assoc.
Qed.

(** The process ends with an exit status of its own choosing, unless the
    command group raised what neither boundary catches. *)
Lemma boundary_exits r :
  (∀ message, r ≠ Raised (BaseError message)) →
  ∃ status, (boundary r).2 = Exited status.
Proof.
  intros Hr. destruct r as [[]|e]; [|destruct e]; try by eexists.
  by destruct (Hr message).
Qed.

(** [MultiCommand.invoke] for this group: the sub-command is looked up,
    the group callback runs, and the sub-command runs in a context that
    inherits [obj]. *)
Lemma group_invoke_eq ctx inv :
  group_invoke (cli_group env) ctx inv =
  match List.find (λ c, String.eqb (cmd_name c) (command inv))
                  (commands (cli_group env)) with
  | None => ([], Raised (UsageError (NoSuchCommand (command inv))))
  | Some cmd =>
      let '(t, r) := run_command cmd (ensure_object_dict ctx) (args inv) in
      ((cli env ctx).1 ++ t, r)
  end.
Proof.
  unfold group_invoke, resolve_command.
  destruct (List.find _ _) as [cmd|]; [|done].
  change (group_callback (cli_group env)) with (cli env).
  rewrite cli_eq. unfold bind, ret. simpl.
  by destruct (run_command cmd _ _) as [t r].
Qed.

(** A whole run: the boundaries settle the outcome of the group. *)
Lemma run_eq inv :
  run env inv =
  let '(t, r) :=
    group_invoke (cli_group env)
                 {| info_name := prog_name inv; obj := Some (Dict ∅) |} inv in
  (t ++ (boundary r).1, (boundary r).2).
Proof.
  unfold Cli.run, Cli.main, Click.main.
  destruct (group_invoke _ _ _) as [t r]. apply boundary_eq.
Qed.

(** The keyword arguments the callbacks look for are the names click
    derives from the declarations. *)
Lemma create_param_names :
  name <$> params (create_command create_module env) =
  ["module_name"; "template"; "category"; "difficulty"; "language";
   "interactive"].
Proof. reflexivity. Qed.

Lemma delete_param_names :
  name <$> params (delete_command delete_module env) =
  ["module_name"; "force"; "remove_repo"].
Proof. reflexivity. Qed.

Lemma validate_param_names :
  name <$> params validate_command = ["path"].
Proof. reflexivity. Qed.

Lemma bound_by_name (ps : list Param) pa kw n :
  parse_args ps pa = inr kw → n ∈ name <$> ps → is_Some (kw !! n).
Proof.
  intros H (p & -> & Hp)%list_elem_of_fmap. by eapply parse_args_bound.
Qed.

Local Ltac bound H n :=
  let a := fresh "a" in
  let Ha := fresh "Ha" in
  destruct (bound_by_name _ _ _ n H) as [a Ha];
  [first [rewrite create_param_names | rewrite delete_param_names
         | rewrite validate_param_names]; set_solver
  | rewrite Ha ].

Lemma run_command_cases cmd ctx pa :
  cmd ∈ commands (cli_group env) →
  rejects (run_command cmd ctx pa)
  ∨ calls_handler {| info_name := cmd_name cmd; obj := obj ctx |}
                  (run_command cmd ctx pa)
  ∨ prints_only (run_command cmd ctx pa).
Proof.
  intros Hcmd. unfold run_command.
  destruct (parse_args (params cmd) pa) as [d|kw] eqn:Hparse;
    [left; by exists d|right].
  simpl in Hcmd.
  repeat (apply elem_of_cons in Hcmd as [->|Hcmd]);
    [| | | |by apply elem_of_nil in Hcmd].
  - left. left. cbn [callback create_command].
    bound Hparse "module_name". bound Hparse "template".
    bound Hparse "category". bound Hparse "difficulty".
    bound Hparse "language". bound Hparse "interactive".
    by do 6 eexists.
  - left. right. cbn [callback delete_command].
    bound Hparse "module_name". bound Hparse "force".
    bound Hparse "remove_repo".
    by do 3 eexists.
  - right. left. cbn [callback validate_command].
    bound Hparse "path". by eexists.
  - right. by right.
Qed.

(** *** Rejected choices *)

(** A choice option rejects a text outside its list. *)
Lemma choice_given ps pa p cs v :
  kind p = IsOption → type p = Choice cs →
  opt_value p (opts pa) = Some v → v ∉ cs →
  handle_parse_result ps pa p = inl (BadChoice (name p) (decls p) v cs).
Proof.
  intros Hk Hty Hv Hnin. unfold handle_parse_result, consume_value.
  rewrite Hty, Hk, Hv. by case_bool_decide.
Qed.

(** An option is rejected only by a choice type, for a text outside its
    list. *)
Lemma option_rejected ps pa p e :
  kind p = IsOption → handle_parse_result ps pa p = inl e →
  ∃ cs raw,
    type p = Choice cs ∧ e = BadChoice (name p) (decls p) raw cs ∧ raw ∉ cs.
Proof.
  intros Hk. unfold handle_parse_result, check_required, required.
  rewrite Hk. destruct (type p) as [|cs|]; [| |done].
  - by destruct (consume_value ps pa p).
  - destruct (consume_value ps pa p) as [raw|]; [|done].
    case_bool_decide; [done|]. intros [= <-]. by exists cs, raw.
Qed.

(** [create] has two choice options. *)
Lemma create_choice_options q cs :
  q ∈ params (create_command create_module env) → type q = Choice cs →
  (q = difficulty_option ∧ cs = difficulty_choices)
  ∨ (q = language_option ∧ cs = language_choices).
Proof.
  intros Hq. cbn [params create_command] in Hq.
  repeat (apply elem_of_cons in Hq as [->|Hq]);
    [| | | | | |by apply elem_of_nil in Hq]; try done.
  - intros [= <-]. by left.
  - intros [= <-]. by right.
Qed.

(** Among the parameters of [create], only the two choice options can be
    rejected while the options given on the command line are processed. *)
Lemma create_option_rejected pa q e :
  q ∈ params (create_command create_module env) → kind q = IsOption →
  handle_parse_result (params (create_command create_module env)) pa q = inl e →
  ∃ raw,
    (e = BadChoice "difficulty" ["--difficulty"; "-d"] raw difficulty_choices
     ∧ raw ∉ difficulty_choices)
    ∨ (e = BadChoice "language" ["--language"; "-l"] raw language_choices
       ∧ raw ∉ language_choices).
Proof.
  intros Hq Hk He.
  destruct (option_rejected _ _ _ _ Hk He) as (cs & raw & Hty & -> & Hnin).
  exists raw.
  destruct (create_choice_options q cs Hq Hty) as [[-> ->]|[-> ->]];
    [by left|by right].
Qed.

(** The parameters of [create] are told apart by their names. *)
Lemma create_param_by_name p q :
  p ∈ params (create_command create_module env) →
  q ∈ params (create_command create_module env) →
  name q = name p → q = p.
Proof.
  intros Hp Hq. simpl in Hp, Hq.
  repeat (apply elem_of_cons in Hp as [->|Hp]);
    [| | | | | |by apply elem_of_nil in Hp];
    (repeat (apply elem_of_cons in Hq as [->|Hq]);
     [| | | | | |by apply elem_of_nil in Hq]); by vm_compute.
Qed.

(** [create] with a text outside the permitted set for [--difficulty] or
    for [--language]: the command line is rejected, and the error names one
    of the two options, a rejected text and the permitted set of that
    option. *)
Lemma create_parse_rejected pa p cs v :
  p ∈ params (create_command create_module env) →
  kind p = IsOption → type p = Choice cs →
  opt_value p (opts pa) = Some v → v ∉ cs →
  ∃ e raw,
    parse_args (params (create_command create_module env)) pa = inl e
    ∧ ((e = BadChoice "difficulty" ["--difficulty"; "-d"] raw
                      difficulty_choices
        ∧ raw ∉ difficulty_choices)
       ∨ (e = BadChoice "language" ["--language"; "-l"] raw language_choices
          ∧ raw ∉ language_choices)).
Proof.
  intros Hp Hk Hty Hv Hnin.
  set (ps := params (create_command create_module env)) in *.
  assert (Hmet : p ∈ invoked ps (opts pa)).
  { destruct (opt_value_Some _ _ _ Hv) as (t & Ht & Hm).
    destruct (invoked_name ps _ p t Hp Ht Hm) as (q & Hq & Hname).
    destruct (invoked_elem ps _ _ Hq) as [Hq' _].
    by rewrite <- (create_param_by_name p q Hp Hq' Hname). }
  destruct (process_params_fails ps pa (invoked ps (opts pa)) ∅ p _ Hmet
              (choice_given ps pa p cs v Hk Hty Hv Hnin)) as [e He].
  destruct (process_params_inl ps pa _ _ _ He) as (q & Hq & Hqe).
  destruct (invoked_elem ps _ _ Hq) as [Hq' Hqk].
  destruct (create_option_rejected pa q e Hq' Hqk Hqe) as [raw Hraw].
  exists e, raw. split; [|done].
  unfold parse_args, processing_order. fold ps.
  by rewrite process_params_app, He.
Qed.

(** *** The shape of a run *)

Lemma find_command n cmd :
  List.find (λ c, String.eqb (cmd_name c) n) (commands (cli_group env))
  = Some cmd →
  cmd ∈ commands (cli_group env) ∧ cmd_name cmd = n.
Proof.
  intros [Hin Hn]%find_some. split; [by apply list_elem_of_In|].
  by apply String.eqb_eq.
Qed.

Lemma find_registered n :
  registered n →
  ∃ cmd, List.find (λ c, String.eqb (cmd_name c) n) (commands (cli_group env))
         = Some cmd.
Proof.
  unfold registered. intros Hn.
  repeat (apply elem_of_cons in Hn as [->|Hn]);
    [| | | |by apply elem_of_nil in Hn]; by eexists.
Qed.

(** Every run is of one of two kinds: the sub-command is unknown and click
    reports it at once; or the group callback runs, then a registered
    sub-command, then the boundaries. *)
Lemma run_cases inv :
  run env inv = ([ShowUsage (NoSuchCommand (command inv))], Exited 2)
  ∨ ∃ cmd m,
      cmd ∈ commands (cli_group env)
      ∧ m = run_command cmd
              (ensure_object_dict
                 {| info_name := prog_name inv; obj := Some (Dict ∅) |})
              (args inv)
      ∧ run env inv =
        ((if truthy (getenv env "GITHUB_TOKEN") then []
          else Echo Stdout <$> token_warning)
         ++ m.1 ++ (boundary m.2).1, (boundary m.2).2)
      ∧ (rejects m
         ∨ calls_handler {| info_name := cmd_name cmd; obj := Some (Dict ∅) |} m
         ∨ prints_only m).
Proof.
  rewrite run_eq, group_invoke_eq.
  destruct (List.find _ _) as [cmd|] eqn:Hfind; [right|by left].
  destruct (find_command _ _ Hfind) as [Hin _].
  exists cmd, (run_command cmd
                 (ensure_object_dict
                    {| info_name := prog_name inv; obj := Some (Dict ∅) |})
                 (args inv)).
  split; [done|]. split; [done|]. split.
  - rewrite cli_eq. destruct (run_command cmd _ _) as [t r].
    cbn [fst snd]. by rewrite <- app_assoc.
  - exact (run_command_cases cmd
             (ensure_object_dict
                {| info_name := prog_name inv; obj := Some (Dict ∅) |})
             (args inv) Hin).
Qed.

(** *** The boundaries *)

(** The boundaries write to the error stream only. *)
Lemma boundary_events r ev :
  ev ∈ (boundary r).1 → (∃ m, ev = Echo Stderr m) ∨ (∃ d, ev = ShowUsage d).
Proof.
  destruct r as [[]|e]; [|destruct e]; cbn;
    intros Hev; repeat (apply elem_of_cons in Hev as [->|Hev]); eauto;
    by apply elem_of_nil in Hev.
Qed.

(** In particular they call no handler. *)
Lemma boundary_no_call r ev :
  ev ∈ (boundary r).1 → handler_outcome ev = None.
Proof. by intros [[m ->]|[d ->]]%boundary_events. Qed.

(** An error raised under the boundaries ends in a message on the error
    stream, a broken pipe apart.  ([Exit] is click's request to leave, not
    an error.) *)
Lemma boundary_visible e :
  is_Exception e = true → (∀ code, e ≠ Exit code) → e ≠ BrokenPipe →
  ∃ t m, (boundary (Raised e)).1 = t ++ [m] ∧ on_stderr m.
Proof.
  intros He Hexit Hpipe. destruct e; try done.
  - by exists [Echo Stderr ""], (Echo Stderr "Aborted!").
  - by exists [], (Echo Stderr "Aborted!").
  - by destruct (Hexit code).
  - by exists [], (ShowUsage detail).
  - by exists [], (Echo Stderr ("Error: " +:+ message)).
  - by exists [], (Echo Stderr (error_message str_builtin (PyError message))).
Qed.

(** The first clause of [main], when an interrupt reaches it: the notice
    goes to standard output, if that can encode it. *)
Lemma main_except_interrupt :
  main_except KeyboardInterrupt =
  if encodes con cancelled_notice
  then ([Echo Stdout cancelled_notice], Raised (SystemExit 1))
  else ([], Raised (PyError (encode_error con cancelled_notice))).
Proof.
  unfold Cli.main_except, echo. cbn. by destruct (encodes con _).
Qed.

(** What surfaces from the command group as an instance of [Exception]
    goes through the second clause of [main]. *)
Lemma main_except_exception e :
  is_Exception e = true →
  main_except e =
  ([Echo Stderr ("❌ Error: " +:+ str str_builtin e)], Raised (SystemExit 1)).
Proof. by destruct e. Qed.

(** Click's standalone mode lets nothing through but [SystemExit] and the
    exceptions it does not know. *)
Lemma standalone_outcome (m : M unit) t r :
  try_except (try_except (m ;; raise (Exit 0)) standalone_inner)
             standalone_outer = (t, r) →
  (∃ code, r = Raised (SystemExit code))
  ∨ (∃ message, r = Raised (PyError message))
  ∨ (∃ message, r = Raised (BaseError message)).
Proof.
  destruct m as [t0 [[]|e]]; [|destruct e]; cbn; intros [= <- <-]; eauto.
Qed.

(** Neither boundary adds a handler call. *)
Lemma standalone_call_contexts (m : M unit) :
  call_contexts
    (try_except (try_except (m ;; raise (Exit 0)) standalone_inner)
                standalone_outer).1 = call_contexts m.1.
Proof.
  unfold call_contexts.
  destruct m as [t [[]|e]]; [|destruct e]; cbn;
    rewrite ?app_nil_r, ?omap_app; cbn; by rewrite ?app_nil_r.
Qed.

Lemma main_except_call_contexts (m : M unit) :
  call_contexts (try_except m main_except).1 = call_contexts m.1.
Proof.
  unfold call_contexts.
  destruct m as [t [[]|e]]; [|destruct e]; unfold try_except;
    rewrite ?main_except_interrupt; try destruct (encodes con _); cbn;
    rewrite ?app_nil_r, ?omap_app; cbn; by rewrite ?app_nil_r.
Qed.

(** A handler gets the context of its sub-command, whose [obj] is the one
    the group callback has ensured. *)
Lemma group_call_contexts ctx inv c :
  c ∈ call_contexts (group_invoke (cli_group env) ctx inv).1 →
  obj c = obj (ensure_object_dict ctx).
Proof.
  rewrite group_invoke_eq.
  destruct (List.find _ _) as [cmd|] eqn:Hfind;
    [|by intros ?%elem_of_nil].
  destruct (find_command _ _ Hfind) as [Hin _].
  rewrite cli_eq.
  destruct (run_command_cases cmd (ensure_object_dict ctx) (args inv) Hin)
    as [(d & ->)|[[Hm|Hm]|[(v & ->)| ->]]].
  - destruct (truthy _); by intros ?%elem_of_nil.
  - destruct Hm as (a1 & a2 & a3 & a4 & a5 & a6 & ->).
    destruct (truthy _); cbn; by intros ->%list_elem_of_singleton.
  - destruct Hm as (a1 & a2 & a3 & ->).
    destruct (truthy _); cbn; by intros ->%list_elem_of_singleton.
  - rewrite validate_eq. cbv zeta.
    destruct (encodes con _); [destruct (encodes con _)|];
      destruct (truthy _); by intros ?%elem_of_nil.
  - destruct (truthy _); by intros ?%elem_of_nil.
Qed.

(** *** Runs with no interrupt outside the command *)

(** In [main], where the only interrupts are those a handler raises, no
    [KeyboardInterrupt] surfaces from the command group: the first
    [except] clause of [Cli.main] has nothing to catch. *)
Lemma interrupt_never_surfaces (g : Group) o inv t r :
  Click.main con g o inv = (t, r) → r ≠ Raised KeyboardInterrupt.
Proof.
  unfold Click.main.
  intros [[c ->]|[[m ->]|[m ->]]]%standalone_outcome; done.
Qed.

(** What a run writes to standard output is the warning of the group or
    the lines of [validate] and [version]. *)
Lemma run_stdout inv line :
  Echo Stdout line ∈ (run env inv).1 →
  line ∈ token_warning
  ∨ (∃ v, line = "🔍 Validating module at: " +:+ format_value v)
  ∨ line ∈ ["⚠️  Validation feature coming soon...";
            "info_tech_cli version 0.1.0";
            "InfoTech.io Educational Platform CLI";
            "Author: A1eksMa <a1ex_ma@mail.ru>"].
Proof.
  intros Hev.
  destruct (run_cases inv) as [Hrun|(cmd & m & _ & _ & Hrun & Hm)];
    rewrite Hrun in Hev; cbn [fst] in Hev.
  { by apply list_elem_of_singleton in Hev. }
  apply elem_of_app in Hev as [Hev|[Hev|Hev]%elem_of_app].
  - left. destruct (truthy _); [by apply elem_of_nil in Hev|].
    by apply list_elem_of_fmap in Hev as (? & [= ->] & ?).
  - right. destruct Hm as [(d & ->)|[[Hm|Hm]|[(v & ->)| ->]]].
    + by apply elem_of_nil in Hev.
    + destruct Hm as (a1 & a2 & a3 & a4 & a5 & a6 & ->).
      by apply list_elem_of_singleton in Hev.
    + destruct Hm as (a1 & a2 & a3 & ->).
      by apply list_elem_of_singleton in Hev.
    + apply validate_events in Hev as [[= ->]|[= ->]];
        [left; by exists v|right; set_solver].
    + cbn in Hev. right.
      repeat (apply elem_of_cons in Hev as [[= ->]|Hev]); try set_solver.
  - by apply boundary_events in Hev as [[msg ?]|[d ?]].
Qed.

(** So the cancellation notice of [Cli.main] is printed by no such run. *)
Lemma cancelled_notice_never_printed inv :
  Echo Stdout cancelled_notice ∉ (run env inv).1.
Proof.
  intros [Hin|[(v & Hv)|Hin]]%run_stdout.
  - cbn in Hin. repeat (apply elem_of_cons in Hin as [?|Hin]); try done.
    by apply elem_of_nil in Hin.
  - done.
  - repeat (apply elem_of_cons in Hin as [?|Hin]); try done.
    by apply elem_of_nil in Hin.
Qed.

(** ** The claims *)

(** C1.  An invocation of [create] whose [--difficulty] text is outside
    beginner, intermediate, advanced, or whose [--language] text is outside
    ru, en, ends as a usage error: click shows the error, which carries the
    rejected text and the permitted set of the option, the exit status is
    the usage-error status 2, and no handler is called. *)
Theorem create_invalid_choice_is_usage_error inv :
  command inv = "create" →
  (∃ v, opt_value difficulty_option (opts (args inv)) = Some v
        ∧ v ∉ difficulty_choices)
  ∨ (∃ v, opt_value language_option (opts (args inv)) = Some v
          ∧ v ∉ language_choices) →
  ∃ pre e raw,
    run env inv = (pre ++ [ShowUsage e], Exited 2)
    ∧ ((e = BadChoice "difficulty" ["--difficulty"; "-d"] raw
                      difficulty_choices
        ∧ raw ∉ difficulty_choices)
       ∨ (e = BadChoice "language" ["--language"; "-l"] raw language_choices
          ∧ raw ∉ language_choices))
    ∧ calls (pre ++ [ShowUsage e]) = [].
Proof.
  destruct inv as [prog cmd pa]. cbn [command args]. intros -> Hbad.
  assert (∃ e raw,
    parse_args (params (create_command create_module env)) pa = inl e
    ∧ ((e = BadChoice "difficulty" ["--difficulty"; "-d"] raw
                      difficulty_choices
        ∧ raw ∉ difficulty_choices)
       ∨ (e = BadChoice "language" ["--language"; "-l"] raw language_choices
          ∧ raw ∉ language_choices))) as (e & raw & Hparse & He).
  { destruct Hbad as [(v & Hv & Hnin)|(v & Hv & Hnin)].
    - apply (create_parse_rejected pa difficulty_option difficulty_choices v);
        [cbn [params create_command]; set_solver|done..].
    - apply (create_parse_rejected pa language_option language_choices v);
        [cbn [params create_command]; set_solver|done..]. }
  rewrite run_eq, group_invoke_eq. cbn [command args prog_name].
  change (List.find _ _) with (Some (create_command create_module env)).
  unfold run_command. rewrite Hparse, cli_eq. cbn [fst].
  exists (if truthy (getenv env "GITHUB_TOKEN") then []
          else Echo Stdout <$> token_warning), e, raw.
  split; [|split; [done|]].
  - unfold raise. cbn. by rewrite app_nil_r.
  - by destruct (truthy _).
Qed.

Lemma run_create_defaults ctx module_name :
  run_command (create_command create_module env) ctx
              {| opts := []; largs := [module_name] |} =
  create create_module env {| info_name := "create"; obj := obj ctx |}
         (VStr module_name) (VStr "module-basic") (VStr "programming")
         (VStr "beginner") (VStr "ru") (VBool false).
Proof. reflexivity. Qed.

(** C2.  [create] with a module name and nothing else calls the creation
    handler exactly once, with the name and the declared defaults; no other
    handler is called. *)
Theorem create_defaults_call prog module_name :
  calls (run env {| prog_name := prog; command := "create";
                    args := {| opts := []; largs := [module_name] |} |}).1 =
  [("create_module",
    [VStr module_name; VStr "module-basic"; VStr "programming";
     VStr "beginner"; VStr "ru"; VBool false])].
Proof.
  rewrite run_eq, group_invoke_eq. cbn [command args prog_name].
  change (List.find _ _) with (Some (create_command create_module env)).
  cbv beta iota.
  rewrite run_create_defaults, cli_eq. unfold create, call. cbn [fst].
  destruct (truthy _);
    (destruct (create_module _ _ _ _ _ _ _ _) as [[]|e]; [|destruct e]);
    reflexivity.
Qed.

Lemma run_validate ctx path :
  run_command validate_command ctx
              {| opts := []; largs := option_list path |} =
  validate (VStr (match path with Some p => p | None => "." end)).
Proof. by destruct path. Qed.

(** C7.  [version] prints the line [info_tech_cli version 0.1.0] on
    standard output and exits with status 0, whatever the environment. *)
Theorem version_prints_version prog :
  let inv := {| prog_name := prog; command := "version";
                args := {| opts := []; largs := [] |} |} in
  run env inv =
  ((cli env {| info_name := prog; obj := Some (Dict ∅) |}).1
   ++ [Echo Stdout "info_tech_cli version 0.1.0";
       Echo Stdout "InfoTech.io Educational Platform CLI";
       Echo Stdout "Author: A1eksMa <a1ex_ma@mail.ru>"],
   Exited 0)
  ∧ "info_tech_cli version 0.1.0" ∈ echoed Stdout (run env inv).1.
Proof.
  cbv zeta. rewrite run_eq, group_invoke_eq. cbn [command args prog_name].
  change (List.find _ _) with (Some version_command). cbv beta iota.
  rewrite cli_eq. destruct (truthy _); (split; [done|]); cbn; set_solver.
Qed.

(** C8.  Every handler call of every run gets a context whose [obj] is a
    dictionary: the empty one [main] passes.  This does not depend on
    [main]: whatever [obj] the group is started with, and without one, the
    group callback has installed a dictionary before a handler runs. *)
Theorem handler_context_has_object inv :
  (∀ ctx, ctx ∈ call_contexts (run env inv).1 → obj ctx = Some (Dict ∅))
  ∧ (∀ o ctx,
        ctx ∈ call_contexts (Click.main con (cli_group env) o inv).1 →
        ∃ d, obj ctx = Some (Dict d)).
Proof.
  split.
  - intros ctx. unfold Cli.run, Cli.main.
    destruct (try_except _ main_except) as [t r] eqn:Hm. cbn [fst].
    replace t with (try_except
      (Click.main con (cli_group env) (Some (Dict ∅)) inv) main_except).1
      by by rewrite Hm.
    rewrite main_except_call_contexts. unfold Click.main.
    rewrite standalone_call_contexts. by intros ->%group_call_contexts.
  - intros o ctx. unfold Click.main. rewrite standalone_call_contexts.
    intros ->%group_call_contexts. apply ensure_object_dict_obj.
Qed.

(** C10.  The group prints the warning exactly when what [os.getenv]
    returned is falsy, and a value is falsy exactly when the variable is
    unset or set to the empty string. *)
Theorem token_warning_iff_falsy ctx :
  ((cli env ctx).1 = Echo Stdout <$> token_warning
   ↔ truthy (getenv env "GITHUB_TOKEN") = false)
  ∧ ((cli env ctx).1 = []
     ↔ truthy (getenv env "GITHUB_TOKEN") = true)
  ∧ (truthy (getenv env "GITHUB_TOKEN") = false
     ↔ getenv env "GITHUB_TOKEN" = None ∨ getenv env "GITHUB_TOKEN" = Some "").
Proof.
  rewrite cli_eq. cbn [fst]. split; [|split].
  - by destruct (truthy _).
  - by destruct (truthy _).
  - destruct (getenv env "GITHUB_TOKEN") as [s|]; cbn.
    + rewrite negb_false_iff, String.eqb_eq.
      split; [intros ->; by right|by intros [|[= ->]]].
    + split; [by left|done].
Qed.

End Program.

(** ** A user interrupt while a handler runs *)

(** The user interrupts [delete module-x] while [delete_module] runs.
    The interrupt does not reach the [except KeyboardInterrupt] clause of
    [main]: click's standalone mode, inside [cli(obj={})], has turned it
    into [Abort].  What is printed is an empty line and click's [Aborted!]
    on the error stream; the exit status is 1. *)
Lemma interrupt_during_delete create_module str_builtin con env prog :
  run create_module (λ _ _ _ _ _, Raised KeyboardInterrupt) str_builtin con
      env
      {| prog_name := prog; command := "delete";
         args := {| opts := []; largs := ["module-x"] |} |} =
  ((cli con env {| info_name := prog; obj := Some (Dict ∅) |}).1
   ++ [Call "delete_module" {| info_name := "delete"; obj := Some (Dict ∅) |}
            [VStr "module-x"; VBool false; VBool false];
       Echo Stderr ""; Echo Stderr "Aborted!"],
   Exited 1).
Proof.
  rewrite run_eq, group_invoke_eq. cbn [command args prog_name].
  rewrite cli_eq. by destruct (truthy _).
Qed.

(** C9.  On that run nothing about the interrupt goes to standard output:
    standard output holds what the group printed and no more, the
    cancellation notice of [main] is not in it, and the notice the user gets
    is on the error stream. *)
Theorem interrupt_notice_on_error_stream create_module str_builtin con env
        prog :
  let t :=
    (run create_module (λ _ _ _ _ _, Raised KeyboardInterrupt) str_builtin
         con env
         {| prog_name := prog; command := "delete";
            args := {| opts := []; largs := ["module-x"] |} |}).1 in
  (echoed Stdout t
   = echoed Stdout
       ((cli con env {| info_name := prog; obj := Some (Dict ∅) |}).1))
  ∧ (cancelled_notice ∉ echoed Stdout t)
  ∧ echoed Stderr t = [""; "Aborted!"].
Proof.
  cbv zeta. rewrite run_eq, group_invoke_eq. cbn [command args prog_name].
  rewrite cli_eq. destruct (truthy _); cbn; (split; [done|split; [|done]]).
  - by intros ?%elem_of_nil.
  - intros Hin. repeat (apply elem_of_cons in Hin as [?|Hin]); try done.
    by apply elem_of_nil in Hin.
Qed.

(** ** The statements at concrete runs *)

(** [create python-basics --difficulty expert]. *)
Lemma create_invalid_choice_is_usage_error_witness :
  let inv := {| prog_name := "info_tech_cli"; command := "create";
                args := {| opts := [OptValue "difficulty" "expert"];
                           largs := ["python-basics"] |} |} in
  command inv = "create"
  ∧ ((∃ v, opt_value difficulty_option (opts (args inv)) = Some v
           ∧ v ∉ difficulty_choices)
     ∨ (∃ v, opt_value language_option (opts (args inv)) = Some v
             ∧ v ∉ language_choices))
  ∧ ∃ pre e raw,
      run create_ok (delete_raising Abort) (λ _, "") utf8_console ∅ inv
      = (pre ++ [ShowUsage e], Exited 2)
      ∧ ((e = BadChoice "difficulty" ["--difficulty"; "-d"] raw
                        difficulty_choices
          ∧ raw ∉ difficulty_choices)
         ∨ (e = BadChoice "language" ["--language"; "-l"] raw
                          language_choices
            ∧ raw ∉ language_choices))
      ∧ calls (pre ++ [ShowUsage e]) = [].
Proof.
  cbv zeta.
  assert (H : ∃ v, opt_value difficulty_option [OptValue "difficulty" "expert"]
                   = Some v ∧ v ∉ difficulty_choices).
  { exists "expert". split; [reflexivity|].
    apply (bool_decide_unpack _). by vm_compute. }
  split; [reflexivity|]. split; [by left|].
  apply create_invalid_choice_is_usage_error; [reflexivity|by left].
Defined.

(** [create python-basics]: the context the handler gets. *)
Lemma handler_context_has_object_witness :
  let inv := {| prog_name := "info_tech_cli"; command := "create";
                args := {| opts := []; largs := ["python-basics"] |} |} in
  let ctx := {| info_name := "create"; obj := Some (Dict ∅) |} in
  ctx ∈ call_contexts (run create_ok (delete_raising Abort) (λ _, "") utf8_console ∅ inv).1
  ∧ obj ctx = Some (Dict ∅).
Proof.
  cbv zeta.
  assert (Hin : {| info_name := "create"; obj := Some (Dict ∅) |}
    ∈ call_contexts
        (run create_ok (delete_raising Abort) (λ _, "") utf8_console ∅
             {| prog_name := "info_tech_cli"; command := "create";
                args := {| opts := []; largs := ["python-basics"] |} |}).1).
  { vm_compute. left. }
  split; [exact Hin|].
  exact (proj1 (handler_context_has_object
                  create_ok (delete_raising Abort) (λ _, "") utf8_console ∅ _) _ Hin).
Defined.

(** * Further properties *)

Import Decl.

(** ** What an accepted command line binds *)

Section Binding.

Variables (ps : list Param) (pa : ParsedArgs).

(** Processing leaves alone the names it does not go through. *)
Lemma process_params_other l kw kw' n :
  process_params ps pa l kw = inr kw' → n ∉ name <$> l →
  kw' !! n = kw !! n.
Proof.
  revert kw. induction l as [|q l IH]; intros kw; simpl.
  - by intros [= <-].
  - destruct (handle_parse_result ps pa q) as [e|v]; [done|].
    intros H [Hq Hl]%not_elem_of_cons. rewrite (IH _ H Hl).
    by rewrite lookup_insert_ne.
Qed.

(** After a successful processing every parameter that was gone through
    holds the value computed for it. *)
Lemma process_params_values l kw kw' p :
  process_params ps pa l kw = inr kw' → distinct_names l → p ∈ l →
  ∃ v, handle_parse_result ps pa p = inr v ∧ kw' !! name p = Some v.
Proof.
  revert kw. induction l as [|q l IH]; intros kw; simpl.
  - intros _ _ Hp. by apply elem_of_nil in Hp.
  - destruct (handle_parse_result ps pa q) as [e|v] eqn:Hq; [done|].
    intros H Hd Hp.
    assert (Hd' : distinct_names l).
    { intros a b Ha Hb. apply Hd; by right. }
    destruct (decide (name p ∈ name <$> l)) as [Hin|Hnin].
    + apply list_elem_of_fmap in Hin as (p' & Hname & Hp').
      assert (p = p') as <-.
      { apply Hd; [done|by right|done]. }
      by apply (IH _ H Hd' Hp').
    + apply elem_of_cons in Hp as [->|Hp].
      * exists v. split; [done|].
        rewrite (process_params_other _ _ _ _ H Hnin).
        apply lookup_insert_eq.
      * destruct Hnin. apply list_elem_of_fmap. by exists p.
Qed.

(** Processing succeeds when every parameter on the way does. *)
Lemma process_params_ok l kw :
  (∀ p, p ∈ l → ∃ v, handle_parse_result ps pa p = inr v) →
  ∃ kw', process_params ps pa l kw = inr kw'.
Proof.
  revert kw. induction l as [|q l IH]; intros kw Hall; simpl; [by eexists|].
  destruct (Hall q) as [v ->]; [left|]. apply IH.
  intros p Hp. apply Hall. by right.
Qed.

Lemma processing_order_distinct :
  distinct_names ps → distinct_names (processing_order ps pa).
Proof.
  intros Hd p q Hp Hq. apply Hd; by apply (processing_order_elem ps pa).
Qed.

(** The keyword arguments of an accepted command line: each declared
    parameter is bound to the value computed for it. *)
Lemma parse_args_values kw p :
  distinct_names ps → parse_args ps pa = inr kw → p ∈ ps →
  ∃ v, handle_parse_result ps pa p = inr v ∧ kw !! name p = Some v.
Proof.
  intros Hd. unfold parse_args.
  destruct (process_params ps pa (processing_order ps pa) ∅) as [e|kw'] eqn:H;
    [done|].
  destruct (extra_args ps (largs pa)); [|done].
  intros [= <-] Hp.
  destruct (processing_order_names ps pa p Hp) as (q & Hq & Hname).
  assert (q = p) as ->.
  { apply Hd; [by apply (processing_order_elem ps pa)|done..]. }
  by apply (process_params_values _ _ _ _ H (processing_order_distinct Hd)).
Qed.

(** A command line is accepted when every parameter can be computed and
    no positional word is left over. *)
Lemma parse_args_ok :
  (∀ p, p ∈ ps → ∃ v, handle_parse_result ps pa p = inr v) →
  extra_args ps (largs pa) = [] →
  ∃ kw, parse_args ps pa = inr kw.
Proof.
  intros Hall Hextra. unfold parse_args.
  destruct (process_params_ok (processing_order ps pa) ∅) as [kw ->].
  { intros p Hp. apply Hall. by apply (processing_order_elem ps pa). }
  rewrite Hextra. by exists kw.
Qed.

(** A rejection comes from one declared parameter or from the words left
    over. *)
Lemma parse_args_inl e :
  parse_args ps pa = inl e →
  (∃ q, q ∈ ps ∧ handle_parse_result ps pa q = inl e)
  ∨ (e = ExtraArguments (extra_args ps (largs pa))
     ∧ extra_args ps (largs pa) ≠ []).
Proof.
  unfold parse_args.
  destruct (process_params ps pa (processing_order ps pa) ∅) as [e'|kw] eqn:H.
  - intros [= <-]. left.
    destruct (process_params_inl _ _ _ _ _ H) as (q & Hq & He).
    exists q. split; [by apply (processing_order_elem ps pa)|done].
  - destruct (extra_args ps (largs pa)) as [|w ws]; [done|].
    intros [= <-]. by right.
Qed.

Lemma parse_args_left_over :
  extra_args ps (largs pa) ≠ [] → ∃ e, parse_args ps pa = inl e.
Proof.
  intros Hextra. unfold parse_args.
  destruct (process_params ps pa (processing_order ps pa) ∅);
    [by eexists|].
  destruct (extra_args ps (largs pa)); [done|by eexists].
Qed.

End Binding.

(** Membership in a list that is written out. *)
Local Ltac listed := repeat first [by left | right].

(** A flag is set exactly when it occurs on the command line. *)
Lemma flag_matches p ts :
  kind p = IsOption → type p = BOOL →
  existsb (matches p) ts = bool_decide (OptFlag (name p) ∈ ts).
Proof.
  intros Hk Hty. induction ts as [|t ts IH]; [done|].
  cbn [existsb]. rewrite IH. unfold matches, is_flag. rewrite Hk, Hty.
  destruct t as [d raw|d]; cbn.
  - apply bool_decide_ext. rewrite elem_of_cons.
    split; [by right|by intros [?|?]].
  - destruct (String.eqb_spec d (name p)) as [->|Hne]; cbn.
    + symmetry. apply bool_decide_eq_true. left.
    + apply bool_decide_ext. rewrite elem_of_cons.
      split; [by right|]. intros [[= Heq]|?]; [by destruct Hne|done].
Qed.

(** ** More of the program *)

Section More.

Variable create_module :
  environ -> Context -> value -> value -> value -> value -> value ->
  value -> result unit.
Variable delete_module :
  environ -> Context -> value -> value -> value -> result unit.
Variable str_builtin : exn -> string.
Variable con : console.
Variable env : environ.

Local Abbreviation cli := (cli con).
Local Abbreviation validate := (validate con).
Local Abbreviation version := (version con).
Local Abbreviation cli_group := (cli_group create_module delete_module con).
Local Abbreviation run := (run create_module delete_module str_builtin con).
Local Abbreviation boundary := (boundary str_builtin con).
Local Abbreviation main_except := (main_except str_builtin con).
Local Abbreviation command_phase :=
  (command_phase create_module delete_module con).
Local Abbreviation run_signalled :=
  (run_signalled create_module delete_module str_builtin con).
Local Abbreviation handler_outcome :=
  (handler_outcome create_module delete_module env).
Local Abbreviation create_command := (create_command create_module env).
Local Abbreviation delete_command := (delete_command delete_module env).
Local Abbreviation validate_command := (validate_command con).
Local Abbreviation version_command := (version_command con).

(** A run of a registered sub-command: what the group prints, what the
    sub-command does, what the boundaries add. *)
Lemma run_found inv cmd :
  List.find (λ c, String.eqb (cmd_name c) (command inv))
            (commands (cli_group env)) = Some cmd →
  run env inv =
  ((cli env {| info_name := prog_name inv; obj := Some (Dict ∅) |}).1
   ++ (run_command cmd {| info_name := prog_name inv; obj := Some (Dict ∅) |}
                   (args inv)).1
   ++ (boundary (run_command cmd
                   {| info_name := prog_name inv; obj := Some (Dict ∅) |}
                   (args inv)).2).1,
   (boundary (run_command cmd
                {| info_name := prog_name inv; obj := Some (Dict ∅) |}
                (args inv)).2).2).
Proof.
  intros Hfind. rewrite run_eq, group_invoke_eq, Hfind.
  change (ensure_object_dict
            {| info_name := prog_name inv; obj := Some (Dict ∅) |})
    with {| info_name := prog_name inv; obj := Some (Dict ∅) |}.
  destruct (run_command cmd _ _) as [t r]. cbn [fst snd].
  by rewrite <- app_assoc.
Qed.

(** Neither the group callback nor the boundaries call a handler. *)
Lemma calls_app t1 t2 : calls (t1 ++ t2) = calls t1 ++ calls t2.
Proof. apply omap_app. Qed.

Lemma cli_calls ctx : calls (cli env ctx).1 = [].
Proof. rewrite cli_eq. by destruct (truthy _). Qed.

Lemma boundary_calls r : calls (boundary r).1 = [].
Proof. destruct r as [[]|e]; [|destruct e]; reflexivity. Qed.

Lemma run_found_calls inv cmd :
  List.find (λ c, String.eqb (cmd_name c) (command inv))
            (commands (cli_group env)) = Some cmd →
  calls (run env inv).1 =
  calls (run_command cmd {| info_name := prog_name inv; obj := Some (Dict ∅) |}
                     (args inv)).1.
Proof.
  intros Hfind. rewrite (run_found inv cmd Hfind). cbn [fst].
  by rewrite !calls_app, cli_calls, boundary_calls, app_nil_r.
Qed.

(** A rejected command line: the usage error is shown after what the group
    printed, the exit status is 2. *)
Lemma run_rejected inv cmd e :
  List.find (λ c, String.eqb (cmd_name c) (command inv))
            (commands (cli_group env)) = Some cmd →
  parse_args (params cmd) (args inv) = inl e →
  run env inv =
  ((cli env {| info_name := prog_name inv; obj := Some (Dict ∅) |}).1
   ++ [ShowUsage e], Exited 2).
Proof.
  intros Hfind Hparse. rewrite (run_found inv cmd Hfind).
  unfold run_command. by rewrite Hparse.
Qed.

(** *** [delete] *)

Lemma delete_distinct_names : distinct_names (params delete_command).
Proof.
  intros p q Hp Hq. cbn [params Cli.delete_command] in Hp, Hq.
  repeat (apply elem_of_cons in Hp as [->|Hp]);
    [| | |by apply elem_of_nil in Hp];
    (repeat (apply elem_of_cons in Hq as [->|Hq]);
     [| | |by apply elem_of_nil in Hq]); by vm_compute.
Qed.

(** The flags of [delete] are never rejected. *)
Lemma delete_flags_ok pa :
  handle_parse_result (params delete_command) pa force_flag
  = inr (VBool (bool_decide (OptFlag "force" ∈ opts pa)))
  ∧ handle_parse_result (params delete_command) pa remove_repo_flag
    = inr (VBool (bool_decide (OptFlag "remove_repo" ∈ opts pa))).
Proof.
  split.
  - change (handle_parse_result _ pa force_flag)
      with (@inr usage_error _ (VBool (existsb (matches force_flag) (opts pa)))).
    by rewrite flag_matches.
  - change (handle_parse_result _ pa remove_repo_flag)
      with (@inr usage_error _
              (VBool (existsb (matches remove_repo_flag) (opts pa)))).
    by rewrite flag_matches.
Qed.

(** With one positional word [delete] goes to its handler. *)
Lemma run_delete ctx ts module_name :
  run_command delete_command ctx {| opts := ts; largs := [module_name] |} =
  delete delete_module env {| info_name := "delete"; obj := obj ctx |}
         (VStr module_name)
         (VBool (bool_decide (OptFlag "force" ∈ ts)))
         (VBool (bool_decide (OptFlag "remove_repo" ∈ ts))).
Proof.
  set (pa := {| opts := ts; largs := [module_name] |}).
  destruct (delete_flags_ok pa) as [Hforce Hremove].
  assert (Hname : handle_parse_result (params delete_command) pa
                    module_name_argument = inr (VStr module_name))
    by reflexivity.
  destruct (parse_args_ok (params delete_command) pa) as [kw Hkw].
  { intros p Hp. cbn [params Cli.delete_command] in Hp.
    repeat (apply elem_of_cons in Hp as [->|Hp]);
      [by eexists..|by apply elem_of_nil in Hp]. }
  { reflexivity. }
  unfold run_command. rewrite Hkw. cbn [callback Cli.delete_command cmd_name].
  destruct (parse_args_values _ _ kw module_name_argument
              delete_distinct_names Hkw) as (v1 & H1 & K1);
    [listed|].
  destruct (parse_args_values _ _ kw force_flag
              delete_distinct_names Hkw) as (v2 & H2 & K2);
    [listed|].
  destruct (parse_args_values _ _ kw remove_repo_flag
              delete_distinct_names Hkw) as (v3 & H3 & K3);
    [listed|].
  change (name module_name_argument) with "module_name" in K1.
  change (name force_flag) with "force" in K2.
  change (name remove_repo_flag) with "remove_repo" in K3.
  rewrite K1, K2, K3.
  rewrite Hname in H1. rewrite Hforce in H2. rewrite Hremove in H3.
  injection H1 as <-. injection H2 as <-. injection H3 as <-. reflexivity.
Qed.

(** X1.  [delete NAME], with any flags, calls the deletion handler exactly
    once and no other handler: with the name, with [force] set exactly when
    the force flag is on the command line, and with [remove_repo] set
    exactly when the remove-repo flag is. *)
Theorem delete_call prog ts module_name :
  calls (run env {| prog_name := prog; command := "delete";
                    args := {| opts := ts; largs := [module_name] |} |}).1 =
  [("delete_module",
    [VStr module_name;
     VBool (bool_decide (OptFlag "force" ∈ ts));
     VBool (bool_decide (OptFlag "remove_repo" ∈ ts))])].
Proof.
  rewrite (run_found_calls _ delete_command); [|done].
  cbn [args prog_name]. by rewrite run_delete.
Qed.

(** *** [create] *)

(** A text option is never rejected: it takes the last text given, or the
    default. *)
Lemma text_option_ok ps pa flags d :
  handle_parse_result ps pa (option_ flags d STRING)
  = inr (VStr (option_text (option_ flags d STRING) (opts pa))).
Proof.
  unfold handle_parse_result, consume_value, option_text.
  cbn [type kind default option_].
  by destruct (opt_value _ _).
Qed.

(** A choice option whose text, if any is given, is in the list, takes
    that text or the default. *)
Lemma choice_option_ok ps pa flags d cs :
  d ∈ cs →
  (∀ v, opt_value (option_ flags d (Choice cs)) (opts pa) = Some v → v ∈ cs) →
  handle_parse_result ps pa (option_ flags d (Choice cs))
  = inr (VStr (option_text (option_ flags d (Choice cs)) (opts pa))).
Proof.
  intros Hd Hv. unfold handle_parse_result, consume_value, option_text.
  cbn [type kind default option_].
  destruct (opt_value _ _) as [v|].
  - by rewrite bool_decide_eq_true_2 by by apply Hv.
  - by rewrite bool_decide_eq_true_2.
Qed.

(** With one positional word and permitted choices [create] goes to its
    handler. *)
Lemma run_create ctx ts module_name :
  (∀ v, opt_value difficulty_option ts = Some v → v ∈ difficulty_choices) →
  (∀ v, opt_value language_option ts = Some v → v ∈ language_choices) →
  run_command create_command ctx {| opts := ts; largs := [module_name] |} =
  create create_module env {| info_name := "create"; obj := obj ctx |}
         (VStr module_name)
         (VStr (option_text template_option ts))
         (VStr (option_text category_option ts))
         (VStr (option_text difficulty_option ts))
         (VStr (option_text language_option ts))
         (VBool (bool_decide (OptFlag "interactive" ∈ ts))).
Proof.
  intros Hdiff Hlang.
  set (pa := {| opts := ts; largs := [module_name] |}).
  set (ps := params create_command).
  assert (H1 : handle_parse_result ps pa module_name_argument
               = inr (VStr module_name)) by reflexivity.
  assert (H2 : handle_parse_result ps pa template_option
               = inr (VStr (option_text template_option ts)))
    by apply text_option_ok.
  assert (H3 : handle_parse_result ps pa category_option
               = inr (VStr (option_text category_option ts)))
    by apply text_option_ok.
  assert (H4 : handle_parse_result ps pa difficulty_option
               = inr (VStr (option_text difficulty_option ts))).
  { apply (choice_option_ok ps pa); [|done].
    apply (bool_decide_unpack _). by vm_compute. }
  assert (H5 : handle_parse_result ps pa language_option
               = inr (VStr (option_text language_option ts))).
  { apply (choice_option_ok ps pa); [|done].
    apply (bool_decide_unpack _). by vm_compute. }
  assert (H6 : handle_parse_result ps pa interactive_flag
               = inr (VBool (bool_decide (OptFlag "interactive" ∈ ts)))).
  { change (handle_parse_result ps pa interactive_flag)
      with (@inr usage_error _
              (VBool (existsb (matches interactive_flag) ts))).
    by rewrite flag_matches. }
  destruct (parse_args_ok ps pa) as [kw Hkw].
  { intros p Hp. unfold ps in Hp. cbn [params Cli.create_command] in Hp.
    repeat (apply elem_of_cons in Hp as [->|Hp]);
      [by eexists..|by apply elem_of_nil in Hp]. }
  { reflexivity. }
  assert (Hd : distinct_names ps).
  { intros p q Hp Hq Hn. symmetry.
    by apply (create_param_by_name create_module env p q). }
  unfold run_command. fold ps. rewrite Hkw.
  cbn [callback Cli.create_command cmd_name].
  destruct (parse_args_values ps pa kw module_name_argument Hd Hkw)
    as (v1 & E1 & K1); [listed|].
  destruct (parse_args_values ps pa kw template_option Hd Hkw)
    as (v2 & E2 & K2); [listed|].
  destruct (parse_args_values ps pa kw category_option Hd Hkw)
    as (v3 & E3 & K3); [listed|].
  destruct (parse_args_values ps pa kw difficulty_option Hd Hkw)
    as (v4 & E4 & K4); [listed|].
  destruct (parse_args_values ps pa kw language_option Hd Hkw)
    as (v5 & E5 & K5); [listed|].
  destruct (parse_args_values ps pa kw interactive_flag Hd Hkw)
    as (v6 & E6 & K6); [listed|].
  change (name module_name_argument) with "module_name" in K1.
  change (name template_option) with "template" in K2.
  change (name category_option) with "category" in K3.
  change (name difficulty_option) with "difficulty" in K4.
  change (name language_option) with "language" in K5.
  change (name interactive_flag) with "interactive" in K6.
  rewrite K1, K2, K3, K4, K5, K6.
  rewrite H1 in E1. rewrite H2 in E2. rewrite H3 in E3. rewrite H4 in E4.
  rewrite H5 in E5. rewrite H6 in E6.
  injection E1 as <-. injection E2 as <-. injection E3 as <-.
  injection E4 as <-. injection E5 as <-. injection E6 as <-. reflexivity.
Qed.

(** X2.  [create NAME] with permitted choices calls the creation handler
    exactly once and no other handler.  Each option arrives with the last
    text given for it on the command line, or with its declared default
    when it is not given; [interactive] is set exactly when its flag is
    given. *)
Theorem create_call prog ts module_name :
  (∀ v, opt_value difficulty_option ts = Some v → v ∈ difficulty_choices) →
  (∀ v, opt_value language_option ts = Some v → v ∈ language_choices) →
  calls (run env {| prog_name := prog; command := "create";
                    args := {| opts := ts; largs := [module_name] |} |}).1 =
  [("create_module",
    [VStr module_name;
     VStr (option_text template_option ts);
     VStr (option_text category_option ts);
     VStr (option_text difficulty_option ts);
     VStr (option_text language_option ts);
     VBool (bool_decide (OptFlag "interactive" ∈ ts))])].
Proof.
  intros Hdiff Hlang.
  rewrite (run_found_calls _ create_command); [|done].
  cbn [args prog_name]. by rewrite run_create.
Qed.

(** *** Rejected command lines *)

(** A command line on which some declared parameter is rejected is
    rejected. *)
Lemma parse_args_fails ps pa p e0 :
  distinct_names ps → p ∈ ps → handle_parse_result ps pa p = inl e0 →
  ∃ e, parse_args ps pa = inl e.
Proof.
  intros Hd Hp He.
  destruct (processing_order_names ps pa p Hp) as (q & Hq & Hname).
  assert (q = p) as ->.
  { apply Hd; [by apply (processing_order_elem ps pa)|done..]. }
  destruct (process_params_fails ps pa _ ∅ p e0 Hq He) as [e Hfail].
  exists e. unfold parse_args. by rewrite Hfail.
Qed.

Lemma find_by_name cmd :
  cmd ∈ commands (cli_group env) →
  List.find (λ c, String.eqb (cmd_name c) (cmd_name cmd))
            (commands (cli_group env)) = Some cmd.
Proof.
  intros Hcmd. cbn [commands Cli.cli_group] in Hcmd.
  repeat (apply elem_of_cons in Hcmd as [->|Hcmd]);
    [done..|by apply elem_of_nil in Hcmd].
Qed.

(** X3.  [create] and [delete] without a module name are usage errors:
    click shows the error after what the group printed, the exit status is
    2 and no handler is called.  For [delete] the error is the missing
    argument; for [create] it is the missing argument, unless a choice
    given on the command line is rejected first. *)
Theorem missing_module_name inv :
  command inv = "create" ∨ command inv = "delete" →
  largs (args inv) = [] →
  ∃ e,
    run env inv =
    ((cli env {| info_name := prog_name inv; obj := Some (Dict ∅) |}).1
     ++ [ShowUsage e], Exited 2)
    ∧ calls (run env inv).1 = []
    ∧ (e = MissingParameter "module_name"
       ∨ (command inv = "create"
          ∧ ∃ opt flags raw cs, e = BadChoice opt flags raw cs ∧ raw ∉ cs)).
Proof.
  destruct inv as [prog cmd [ts words]]. cbn [command args largs prog_name].
  intros Hcmd ->.
  assert (∃ c e,
    List.find (λ c, String.eqb (cmd_name c) cmd) (commands (cli_group env))
    = Some c
    ∧ parse_args (params c) {| opts := ts; largs := [] |} = inl e
    ∧ (e = MissingParameter "module_name"
       ∨ (cmd = "create"
          ∧ ∃ opt flags raw cs, e = BadChoice opt flags raw cs ∧ raw ∉ cs)))
    as (c & e & Hfind & Hparse & He).
  { destruct Hcmd as [-> | ->].
    - exists create_command.
      destruct (parse_args_fails (params create_command)
                  {| opts := ts; largs := [] |} module_name_argument
                  (MissingParameter "module_name")) as [e Hparse];
        [|listed|reflexivity|].
      { intros p q Hp Hq Hn. symmetry.
        by apply (create_param_by_name create_module env p q). }
      exists e. split; [done|]. split; [done|].
      destruct (parse_args_inl _ _ _ Hparse) as [(q & Hq & Hqe)|[_ Hextra]];
        [|done].
      destruct (kind q) eqn:Hk.
      + left. cbn [params Cli.create_command] in Hq.
        repeat (apply elem_of_cons in Hq as [->|Hq]); try done;
          [|by apply elem_of_nil in Hq].
        by injection Hqe as <-.
      + right. split; [done|].
        destruct (option_rejected _ _ _ _ Hk Hqe) as (cs & raw & _ & -> & Hnin).
        by exists (name q), (decls q), raw, cs.
    - exists delete_command.
      destruct (parse_args_fails (params delete_command)
                  {| opts := ts; largs := [] |} module_name_argument
                  (MissingParameter "module_name")) as [e Hparse];
        [apply delete_distinct_names|listed|reflexivity|].
      exists e. split; [done|]. split; [done|]. left.
      destruct (parse_args_inl _ _ _ Hparse) as [(q & Hq & Hqe)|[_ Hextra]];
        [|done].
      cbn [params Cli.delete_command] in Hq.
      destruct (kind q) eqn:Hk.
      + repeat (apply elem_of_cons in Hq as [->|Hq]); try done;
          [|by apply elem_of_nil in Hq].
        by injection Hqe as <-.
      + destruct (option_rejected _ _ _ _ Hk Hqe) as (cs & raw & Hty & _).
        repeat (apply elem_of_cons in Hq as [->|Hq]); try done.
        by apply elem_of_nil in Hq. }
  exists e.
  rewrite (run_rejected
             {| prog_name := prog; command := cmd;
                args := {| opts := ts; largs := [] |} |} c e Hfind Hparse).
  cbn [fst prog_name]. split; [done|]. split; [|done].
  by rewrite calls_app, cli_calls.
Qed.

(** X4.  More positional words than the sub-command declares (one for
    [create], [delete] and [validate], none for [version]) are a usage
    error: exit status 2, no handler is called, and nothing is printed but
    the group's warning and the error. *)
Theorem too_many_words inv cmd :
  cmd ∈ commands (cli_group env) → cmd_name cmd = command inv →
  arity cmd < length (largs (args inv)) →
  ∃ e,
    run env inv =
    ((cli env {| info_name := prog_name inv; obj := Some (Dict ∅) |}).1
     ++ [ShowUsage e], Exited 2)
    ∧ calls (run env inv).1 = [].
Proof.
  intros Hcmd Hname Hlen.
  pose proof (find_by_name cmd Hcmd) as Hfind. rewrite Hname in Hfind.
  destruct (parse_args_left_over (params cmd) (args inv)) as [e Hparse].
  { unfold extra_args. fold (arity cmd). intros Hnil.
    apply (f_equal length) in Hnil. rewrite length_drop in Hnil.
    cbn in Hnil. lia. }
  exists e. rewrite (run_rejected inv cmd e Hfind Hparse). cbn [fst].
  split; [done|]. by rewrite calls_app, cli_calls.
Qed.

(** X6.  A name that is not one of the four sub-commands is a usage error
    raised before the group callback runs: nothing but the error is
    printed, not even the token warning, and the exit status is 2. *)
Theorem unknown_command inv :
  ¬ registered (command inv) →
  run env inv = ([ShowUsage (NoSuchCommand (command inv))], Exited 2).
Proof.
  intros Hreg. rewrite run_eq, group_invoke_eq.
  destruct (List.find _ _) as [cmd|] eqn:Hfind; [|done].
  destruct (find_command _ _ _ _ _ _ Hfind) as [Hin Hname].
  destruct Hreg. rewrite <- Hname. unfold registered.
  cbn [commands Cli.cli_group] in Hin.
  repeat (apply elem_of_cons in Hin as [->|Hin]);
    [listed..|by apply elem_of_nil in Hin].
Qed.

(** *** One handler, and the right one *)

Lemma run_command_calls cmd ctx pa :
  cmd ∈ commands (cli_group env) →
  calls (run_command cmd ctx pa).1 = []
  ∨ (cmd_name cmd = "create"
     ∧ ∃ a, calls (run_command cmd ctx pa).1 = [("create_module", a)])
  ∨ (cmd_name cmd = "delete"
     ∧ ∃ a, calls (run_command cmd ctx pa).1 = [("delete_module", a)]).
Proof.
  intros Hcmd.
  destruct (run_command_cases create_module delete_module con env cmd ctx
              pa Hcmd)
    as [(d & ->)|[[Hm|Hm]|[(v & ->)| ->]]]; try by left.
  3: { left. rewrite validate_eq. cbv zeta.
       destruct (encodes con _); [by destruct (encodes con _)|done]. }
  - destruct Hm as (a1 & a2 & a3 & a4 & a5 & a6 & Hm). rewrite Hm.
    right. left. split; [|by eexists].
    cbn [commands Cli.cli_group] in Hcmd.
    repeat (apply elem_of_cons in Hcmd as [->|Hcmd]); try done.
    + unfold run_command in Hm. cbn [callback Cli.delete_command] in Hm.
      destruct (parse_args _ _); [done|].
      by repeat (destruct (_ !! _) in Hm; try done).
    + unfold run_command in Hm. cbn [callback Cli.validate_command] in Hm.
      destruct (parse_args _ _); [done|].
      destruct (_ !! _) in Hm; [|done].
      rewrite validate_eq in Hm. cbv zeta in Hm.
      by repeat (destruct (encodes con _) in Hm).
    + unfold run_command in Hm. by destruct (parse_args _ _).
    + by apply elem_of_nil in Hcmd.
  - destruct Hm as (a1 & a2 & a3 & Hm). rewrite Hm.
    right. right. split; [|by eexists].
    cbn [commands Cli.cli_group] in Hcmd.
    repeat (apply elem_of_cons in Hcmd as [->|Hcmd]); try done.
    + unfold run_command in Hm. cbn [callback Cli.create_command] in Hm.
      destruct (parse_args _ _); [done|].
      by repeat (destruct (_ !! _) in Hm; try done).
    + unfold run_command in Hm. cbn [callback Cli.validate_command] in Hm.
      destruct (parse_args _ _); [done|].
      destruct (_ !! _) in Hm; [|done].
      rewrite validate_eq in Hm. cbv zeta in Hm.
      by repeat (destruct (encodes con _) in Hm).
    + unfold run_command in Hm. by destruct (parse_args _ _).
    + by apply elem_of_nil in Hcmd.
Qed.

(** X5.  A run calls at most one handler, and only the handler of the
    sub-command named on the command line: [create_module] under [create],
    [delete_module] under [delete]; [validate], [version] and unknown names
    call none. *)
Theorem one_handler_per_run inv :
  calls (run env inv).1 = []
  ∨ (command inv = "create"
     ∧ ∃ a, calls (run env inv).1 = [("create_module", a)])
  ∨ (command inv = "delete"
     ∧ ∃ a, calls (run env inv).1 = [("delete_module", a)]).
Proof.
  destruct (List.find (λ c, String.eqb (cmd_name c) (command inv))
                      (commands (cli_group env))) as [cmd|] eqn:Hfind.
  - rewrite (run_found_calls inv cmd Hfind).
    destruct (find_command _ _ _ _ _ _ Hfind) as [Hin <-].
    by apply (run_command_calls).
  - left. rewrite run_eq, group_invoke_eq, Hfind. reflexivity.
Qed.

(** *** How a run that reached a handler ends *)

(** The handler call is the last thing before the boundaries, and its
    outcome is what they settle. *)
Lemma run_with_call inv ev r :
  ev ∈ (run env inv).1 →
  handler_outcome ev = Some r →
  run env inv =
  ((cli env {| info_name := prog_name inv; obj := Some (Dict ∅) |}).1
   ++ [ev] ++ (boundary r).1, (boundary r).2).
Proof.
  intros Hev Hout.
  destruct (run_cases create_module delete_module str_builtin con env inv)
    as [Hrun|(cmd & m & _ & _ & Hrun & Hm)].
  { rewrite Hrun in Hev. by apply list_elem_of_singleton in Hev as ->. }
  rewrite Hrun in Hev |- *. cbn [fst] in Hev. rewrite cli_eq. cbn [fst].
  assert (m = ([ev], r)) as ->; [|done].
  apply elem_of_app in Hev as [Hev|[Hev|Hev]%elem_of_app].
  - destruct (truthy _); [by apply elem_of_nil in Hev|].
    by apply list_elem_of_fmap in Hev as (? & -> & _).
  - destruct Hm as [(d & ->)|[[Hm|Hm]|[(v & ->)| ->]]].
    + by apply elem_of_nil in Hev.
    + destruct Hm as (a1 & a2 & a3 & a4 & a5 & a6 & ->).
      apply list_elem_of_singleton in Hev as ->. cbn in Hout. congruence.
    + destruct Hm as (a1 & a2 & a3 & ->).
      apply list_elem_of_singleton in Hev as ->. cbn in Hout. congruence.
    + by apply validate_events in Hev as [-> | ->].
    + cbn in Hev. repeat (apply elem_of_cons in Hev as [->|Hev]); try done.
      by apply elem_of_nil in Hev.
  - by rewrite (boundary_no_call _ _ _ _ _ _ _ Hev) in Hout.
Qed.

(** X7.  When the handler returns, the run is over: nothing is printed
    after the call, nothing at all went to the error stream, and the exit
    status is 0. *)
Theorem handler_returns inv ev :
  ev ∈ (run env inv).1 →
  handler_outcome ev = Some (Ok tt) →
  run env inv =
  ((cli env {| info_name := prog_name inv; obj := Some (Dict ∅) |}).1
   ++ [ev], Exited 0)
  ∧ echoed Stderr (run env inv).1 = [].
Proof.
  intros Hev Hout. rewrite (run_with_call inv ev _ Hev Hout).
  split; [done|]. cbn [fst]. rewrite cli_eq.
  destruct ev; try done. by destruct (truthy _).
Qed.

(** X8.  An exit code a handler asks for, with [sys.exit] or with
    click's [ctx.exit], decides the exit status of the process: [main] lets
    [SystemExit] pass, and no message is added.  The status is the code
    as the operating system keeps it, its low eight bits: a code between 0
    and 255 is the status, 256 becomes 0. *)
Theorem handler_exit_status inv ev code :
  ev ∈ (run env inv).1 →
  handler_outcome ev = Some (Raised (SystemExit code))
  ∨ handler_outcome ev = Some (Raised (Exit code)) →
  run env inv =
  ((cli env {| info_name := prog_name inv; obj := Some (Dict ∅) |}).1
   ++ [ev], Exited (exit_status code))
  ∧ ((0 <= code < 256)%Z → exit_status code = code)
  ∧ exit_status 256 = 0%Z.
Proof.
  intros Hev Hout. split; [|split; [apply exit_status_byte|reflexivity]].
  destruct Hout as [Hout|Hout]; by rewrite (run_with_call inv ev _ Hev Hout).
Qed.

(** X9.  A click exception raised by a handler does not reach the
    [except Exception] clause of [main]: click shows it as [Error: ...] on
    the error stream, without the failure marker of [main], and the exit
    status is the one the exception carries, as the operating system keeps
    it.  A [click.Abort] ends in [Aborted!] on the error stream and
    status 1. *)
Theorem handler_click_exception inv ev :
  ev ∈ (run env inv).1 →
  (∀ code message,
      handler_outcome ev
      = Some (Raised (ClickException code message)) →
      run env inv =
      ((cli env {| info_name := prog_name inv; obj := Some (Dict ∅) |}).1
       ++ [ev; Echo Stderr ("Error: " +:+ message)],
       Exited (exit_status code)))
  ∧ (handler_outcome ev = Some (Raised Abort) →
     run env inv =
     ((cli env {| info_name := prog_name inv; obj := Some (Dict ∅) |}).1
      ++ [ev; Echo Stderr "Aborted!"], Exited 1)).
Proof.
  intros Hev. split.
  - intros code message Hout.
    by rewrite (run_with_call inv ev _ Hev Hout).
  - intros Hout. by rewrite (run_with_call inv ev _ Hev Hout).
Qed.

(** *** Which choice is reported *)

(** The rejected choice, when the other one is in order. *)
Lemma create_rejected_choice pa p other cs v :
  p ∈ params create_command → kind p = IsOption → type p = Choice cs →
  (∀ q cs0, q ∈ params create_command → type q = Choice cs0 →
            q = p ∨ q = other) →
  opt_value p (opts pa) = Some v → v ∉ cs →
  (∃ x, handle_parse_result (params create_command) pa other = inr x) →
  parse_args (params create_command) pa
  = inl (BadChoice (name p) (decls p) v cs).
Proof.
  intros Hin Hk Hty Hchoice Hv Hbad [x Hother].
  destruct (create_parse_rejected create_module env pa p cs v Hin Hk Hty Hv Hbad)
    as (e & raw & Hparse & He).
  rewrite Hparse. f_equal.
  destruct (parse_args_inl _ _ _ Hparse) as [(q & Hq & Hqe)|[-> _]];
    [|by destruct He as [[? _]|[? _]]].
  destruct (kind q) eqn:Hqk.
  - exfalso. cbn [params Cli.create_command] in Hq.
    repeat (apply elem_of_cons in Hq as [->|Hq]); try done;
      [|by apply elem_of_nil in Hq].
    unfold handle_parse_result in Hqe. cbn [type argument] in Hqe.
    destruct (consume_value _ _ _); [done|].
    injection Hqe as <-. by destruct He as [[? _]|[? _]].
  - destruct (option_rejected _ _ _ _ Hqk Hqe)
      as (cs0 & raw0 & Hqty & -> & Hnin).
    destruct (Hchoice q cs0 Hq Hqty) as [-> | ->].
    + pose proof (choice_given (params create_command) pa p cs v
                    Hk Hty Hv Hbad) as Hp_rej.
      congruence.
    + by rewrite Hother in Hqe.
Qed.

(** X10.  When the text given for [--difficulty] is not permitted and
    [--language] is in order, the usage error of [create] is about
    [--difficulty] and quotes the text as last given, whatever else is on
    the command line; and the same with the two options exchanged. *)
Theorem create_reports_offending_option prog ts words v :
  (opt_value difficulty_option ts = Some v → v ∉ difficulty_choices →
   (∀ w, opt_value language_option ts = Some w → w ∈ language_choices) →
   run env {| prog_name := prog; command := "create";
              args := {| opts := ts; largs := words |} |} =
   ((cli env {| info_name := prog; obj := Some (Dict ∅) |}).1
    ++ [ShowUsage (BadChoice "difficulty" ["--difficulty"; "-d"] v
                             difficulty_choices)],
    Exited 2))
  ∧ (opt_value language_option ts = Some v → v ∉ language_choices →
     (∀ w, opt_value difficulty_option ts = Some w → w ∈ difficulty_choices) →
     run env {| prog_name := prog; command := "create";
                args := {| opts := ts; largs := words |} |} =
     ((cli env {| info_name := prog; obj := Some (Dict ∅) |}).1
      ++ [ShowUsage (BadChoice "language" ["--language"; "-l"] v
                               language_choices)],
      Exited 2)).
Proof.
  set (inv := {| prog_name := prog; command := "create";
                 args := {| opts := ts; largs := words |} |}).
  split; intros Hv Hbad Hgood.
  - rewrite (run_rejected inv create_command
               (BadChoice "difficulty" ["--difficulty"; "-d"] v
                          difficulty_choices) eq_refl); [done|].
    apply (create_rejected_choice _ difficulty_option language_option);
      [listed|done..| |done|done|].
    + intros q cs0 Hq Hqty.
      destruct (create_choice_options create_module env q cs0 Hq Hqty)
        as [[-> _]|[-> _]]; [by left|by right].
    + eexists. apply choice_option_ok; [|done].
      apply (bool_decide_unpack _). by vm_compute.
  - rewrite (run_rejected inv create_command
               (BadChoice "language" ["--language"; "-l"] v
                          language_choices) eq_refl); [done|].
    apply (create_rejected_choice _ language_option difficulty_option);
      [listed|done..| |done|done|].
    + intros q cs0 Hq Hqty.
      destruct (create_choice_options create_module env q cs0 Hq Hqty)
        as [[-> _]|[-> _]]; [by right|by left].
    + eexists. apply choice_option_ok; [|done].
      apply (bool_decide_unpack _). by vm_compute.
Qed.

(** *** [validate] *)

(** [validate] where standard output can encode its two lines. *)
Lemma run_validate_encodable prog path :
  let line := "🔍 Validating module at: "
              +:+ match path with Some p => p | None => "." end in
  let notice := "⚠️  Validation feature coming soon..." in
  encodes con line = true → encodes con notice = true →
  run env {| prog_name := prog; command := "validate";
             args := {| opts := []; largs := option_list path |} |} =
  ((cli env {| info_name := prog; obj := Some (Dict ∅) |}).1
   ++ [Echo Stdout line; Echo Stdout notice],
   Exited 0).
Proof.
  cbv zeta. intros Hline Hnotice.
  rewrite run_eq, group_invoke_eq. cbn [command args prog_name].
  change (List.find _ _) with (Some validate_command). cbv beta iota.
  rewrite run_validate, validate_eq. cbv zeta.
  change (format_value (VStr ?p)) with p.
  rewrite Hline, Hnotice, cli_eq. by destruct (truthy _).
Qed.

(** C6.  Where standard output can encode the two lines of [validate],
    the command, with a path or without one (the path is then [.]), prints
    the line that ends in the path and the fixed notice, after what the
    group printed, and the exit status is 0.  The events of a run are all
    it does to the world outside: this run calls no handler and every
    event of it is a line written to standard output. *)
Theorem validate_coming_soon prog path :
  let inv := {| prog_name := prog; command := "validate";
                args := {| opts := []; largs := option_list path |} |} in
  let line := "🔍 Validating module at: "
              +:+ match path with Some p => p | None => "." end in
  let notice := "⚠️  Validation feature coming soon..." in
  encodes con line = true → encodes con notice = true →
  run env inv =
  ((cli env {| info_name := prog; obj := Some (Dict ∅) |}).1
   ++ [Echo Stdout line; Echo Stdout notice],
   Exited 0)
  ∧ calls (run env inv).1 = []
  ∧ (∀ ev, ev ∈ (run env inv).1 → ∃ text, ev = Echo Stdout text).
Proof.
  cbv zeta. intros Hline Hnotice.
  rewrite (run_validate_encodable prog path Hline Hnotice), cli_eq.
  destruct (truthy _); (split; [done|split; [done|]]); cbn;
    intros ev Hev; repeat (apply elem_of_cons in Hev as [->|Hev]);
    try by eexists.
  all: by apply elem_of_nil in Hev.
Qed.

(** *** The missing token *)

(** C5.  With [GITHUB_TOKEN] unset, a run of a registered sub-command
    starts with the three lines of the warning, which occur nowhere else in
    it: the group prints them once, before anything of the sub-command.
    The sub-command then runs as it is written and the run ends as the
    sub-command does: [create] and [delete] call their handlers with the
    values of the command line, and the outcome of the handler decides how
    the run ends; [validate] and [version] print their lines and the exit
    status is 0; a sub-command that returns ends the run with status 0. *)
Theorem missing_token_warning_nonfatal :
  getenv env "GITHUB_TOKEN" = None →
  let warning := Echo Stdout <$> token_warning in
  (∀ inv,
      registered (command inv) →
      ∃ cmd,
        cmd ∈ commands (cli_group env) ∧ cmd_name cmd = command inv
        ∧ let m := run_command cmd
                     {| info_name := prog_name inv; obj := Some (Dict ∅) |}
                     (args inv) in
          run env inv
          = (warning ++ m.1 ++ (boundary m.2).1, (boundary m.2).2)
          ∧ ∀ line, line ∈ token_warning →
                    Echo Stdout line ∉ m.1 ++ (boundary m.2).1)
  ∧ (∀ prog ts module_name,
        (∀ v, opt_value difficulty_option ts = Some v →
              v ∈ difficulty_choices) →
        (∀ v, opt_value language_option ts = Some v →
              v ∈ language_choices) →
        let ctx := {| info_name := "create"; obj := Some (Dict ∅) |} in
        let template := VStr (option_text template_option ts) in
        let category := VStr (option_text category_option ts) in
        let difficulty := VStr (option_text difficulty_option ts) in
        let language := VStr (option_text language_option ts) in
        let interactive :=
          VBool (bool_decide (OptFlag "interactive" ∈ ts)) in
        let r := create_module env ctx (VStr module_name) template category
                               difficulty language interactive in
        run env {| prog_name := prog; command := "create";
                   args := {| opts := ts; largs := [module_name] |} |}
        = (warning
           ++ [Call "create_module" ctx
                    [VStr module_name; template; category; difficulty;
                     language; interactive]]
           ++ (boundary r).1,
           (boundary r).2))
  ∧ (∀ prog ts module_name,
        let ctx := {| info_name := "delete"; obj := Some (Dict ∅) |} in
        let force := VBool (bool_decide (OptFlag "force" ∈ ts)) in
        let remove_repo :=
          VBool (bool_decide (OptFlag "remove_repo" ∈ ts)) in
        let r := delete_module env ctx (VStr module_name) force
                               remove_repo in
        run env {| prog_name := prog; command := "delete";
                   args := {| opts := ts; largs := [module_name] |} |}
        = (warning
           ++ [Call "delete_module" ctx
                    [VStr module_name; force; remove_repo]]
           ++ (boundary r).1,
           (boundary r).2))
  ∧ (∀ prog path,
        let line := "🔍 Validating module at: "
                    +:+ match path with Some p => p | None => "." end in
        let notice := "⚠️  Validation feature coming soon..." in
        encodes con line = true → encodes con notice = true →
        run env {| prog_name := prog; command := "validate";
                   args := {| opts := []; largs := option_list path |} |}
        = (warning ++ [Echo Stdout line; Echo Stdout notice], Exited 0))
  ∧ (∀ prog,
        run env {| prog_name := prog; command := "version";
                   args := {| opts := []; largs := [] |} |}
        = (warning
           ++ [Echo Stdout "info_tech_cli version 0.1.0";
               Echo Stdout "InfoTech.io Educational Platform CLI";
               Echo Stdout "Author: A1eksMa <a1ex_ma@mail.ru>"],
           Exited 0))
  ∧ boundary (Ok tt) = ([], Exited 0).
Proof.
  intros Hnone. cbv zeta.
  assert (Hcli : ∀ ctx, (cli env ctx).1 = Echo Stdout <$> token_warning).
  { intros ctx. by rewrite cli_eq, Hnone. }
  split; [|split; [|split; [|split; [|split]]]].
  - intros inv Hreg.
    destruct (find_registered create_module delete_module con env _ Hreg)
      as [cmd Hfind].
    destruct (find_command _ _ _ _ _ _ Hfind) as [Hin Hname].
    exists cmd. split; [done|]. split; [done|]. split.
    { by rewrite (run_found inv cmd Hfind), Hcli. }
    intros line Hline [Hev|Hev]%elem_of_app.
    + destruct (run_command_cases create_module delete_module con env cmd
                  {| info_name := prog_name inv; obj := Some (Dict ∅) |}
                  (args inv) Hin)
        as [(d & Hm)|[[Hm|Hm]|[(v & Hm)|Hm]]].
      * rewrite Hm in Hev. by apply elem_of_nil in Hev.
      * destruct Hm as (a1 & a2 & a3 & a4 & a5 & a6 & Hm).
        rewrite Hm in Hev. by apply list_elem_of_singleton in Hev.
      * destruct Hm as (a1 & a2 & a3 & Hm).
        rewrite Hm in Hev. by apply list_elem_of_singleton in Hev.
      * rewrite Hm in Hev.
        apply validate_events in Hev as [[= ->]|[= ->]]; cbn in Hline;
          (repeat (apply elem_of_cons in Hline as [?|Hline]); try done;
           by apply elem_of_nil in Hline).
      * rewrite Hm, version_eq in Hev. cbn in Hev, Hline.
        repeat (apply elem_of_cons in Hline as [->|Hline]);
          [| | |by apply elem_of_nil in Hline];
          (repeat (apply elem_of_cons in Hev as [Hev|Hev]); try done;
           by apply elem_of_nil in Hev).
    + by apply (boundary_events str_builtin con) in Hev as [[msg ?]|[d ?]].
  - intros prog ts module_name Hdiff Hlang.
    rewrite (run_found _ create_command); [|done].
    cbn [args prog_name]. rewrite Hcli, (run_create _ _ _ Hdiff Hlang).
    reflexivity.
  - intros prog ts module_name.
    rewrite (run_found _ delete_command); [|done].
    cbn [args prog_name]. rewrite Hcli, run_delete. reflexivity.
  - intros prog path Hline Hnotice.
    by rewrite (run_validate_encodable prog path Hline Hnotice), Hcli.
  - intros prog. rewrite (run_found _ version_command); [|done].
    by rewrite Hcli.
  - reflexivity.
Qed.

(** *** Errors raised by a handler *)

(** The second clause of [main]: whatever [cli(obj={})] has done, an
    instance of [Exception] that surfaces from it ends in one message on
    the error stream and [sys.exit(1)]. *)
Lemma main_reports_exception (m : M unit) t e :
  m = (t, Raised e) → is_Exception e = true →
  try_except m main_except =
  (t ++ [Echo Stderr ("❌ Error: " +:+ str str_builtin e)],
   Raised (SystemExit 1)).
Proof.
  intros -> He. unfold try_except.
  by rewrite (main_except_exception str_builtin con e He).
Qed.

(** C3.  What [main] catches is what surfaces from [cli(obj={})] as an
    instance of [Exception]: it prints one message with the failure marker
    on the error stream and exits with status 1, whatever the exception.
    An error raised by a handler gets there only when click has no clause
    for it.  After the call of the handler the run ends as follows: an
    ordinary error, in the message of [main] and status 1; a click
    exception or a usage error, in click's own message and the status the
    exception carries; an end of input or an interrupt, in [Aborted!] and
    status 1; a broken pipe, in status 1 and no message at all; a request
    to exit, in the requested status and no message; an exception that is
    no instance of [Exception], uncaught. *)
Theorem handler_error_outcome inv :
  (∀ (m : M unit) t e,
      m = (t, Raised e) → is_Exception e = true →
      (let '(t', r) := try_except m main_except in (t', terminate r))
      = (t ++ [Echo Stderr ("❌ Error: " +:+ str str_builtin e)], Exited 1))
  ∧ (∀ ev e,
        ev ∈ (run env inv).1 →
        handler_outcome ev = Some (Raised e) →
        let pre :=
          (cli env {| info_name := prog_name inv; obj := Some (Dict ∅) |}).1
          ++ [ev] in
        run env inv =
        match e with
        | PyError message =>
            (pre ++ [Echo Stderr ("❌ Error: " +:+ message)], Exited 1)
        | ClickException code message =>
            (pre ++ [Echo Stderr ("Error: " +:+ message)],
             Exited (exit_status code))
        | UsageError detail => (pre ++ [ShowUsage detail], Exited 2)
        | KeyboardInterrupt | EOFError =>
            (pre ++ [Echo Stderr ""; Echo Stderr "Aborted!"], Exited 1)
        | Abort => (pre ++ [Echo Stderr "Aborted!"], Exited 1)
        | BrokenPipe => (pre, Exited 1)
        | Exit code | SystemExit code => (pre, Exited (exit_status code))
        | BaseError message => (pre, Uncaught (BaseError message))
        end).
Proof.
  split.
  - intros m t e Hm He. by rewrite (main_reports_exception m t e Hm He).
  - intros ev e Hev Hout. cbv zeta.
    rewrite (run_with_call inv ev _ Hev Hout).
    destruct e; cbn; by rewrite ?app_nil_r, <- ?app_assoc.
Qed.

(** *** Interrupts *)

(** Without interrupts of its own [main_signalled] is [main]. *)
Lemma click_main_no_signals (g : Group) o inv :
  Click.main_signalled no_signals con g o inv = Click.main con g o inv.
Proof.
  unfold Click.main_signalled, Click.main, no_signals, interrupted,
    standalone_handling. cbn [at_start in_command in_click].
  destruct (group_invoke g _ inv) as [t [[]|e]]; [|destruct e]; cbn;
    by rewrite ?app_nil_r, <- ?app_assoc.
Qed.

Lemma run_no_signals inv : run_signalled no_signals env inv = run env inv.
Proof.
  unfold Cli.run_signalled, Cli.run, Cli.main_signalled, Cli.main.
  rewrite click_main_no_signals.
  destruct (Click.main con _ _ inv) as [t [[]|e]]; [|destruct e];
    reflexivity.
Qed.

(** The command phase: the group callback, the sub-command, and the
    request to exit that follows a sub-command that returned. *)
Lemma command_phase_eq inv :
  command_phase env inv =
  match List.find (λ c, String.eqb (cmd_name c) (command inv))
                  (commands (cli_group env)) with
  | None => ([], Raised (UsageError (NoSuchCommand (command inv))))
  | Some cmd =>
      let m := run_command cmd
                 {| info_name := prog_name inv; obj := Some (Dict ∅) |}
                 (args inv) in
      ((cli env {| info_name := prog_name inv; obj := Some (Dict ∅) |}).1
       ++ m.1,
       match m.2 with Ok _ => Raised (Exit 0) | Raised e => Raised e end)
  end.
Proof.
  unfold Cli.command_phase. rewrite group_invoke_eq.
  destruct (List.find _ _) as [cmd|]; [|done].
  change (ensure_object_dict
            {| info_name := prog_name inv; obj := Some (Dict ∅) |})
    with {| info_name := prog_name inv; obj := Some (Dict ∅) |}.
  destruct (run_command cmd _ _) as [t [[]|e]]; cbn;
    by rewrite ?app_nil_r.
Qed.

(** It writes to standard output only, and never the notice of [main]. *)
Lemma command_phase_events inv ev :
  ev ∈ (command_phase env inv).1 →
  (∃ line, ev = Echo Stdout line ∧ line ≠ cancelled_notice)
  ∨ (∃ h ctx a, ev = Call h ctx a).
Proof.
  rewrite command_phase_eq.
  destruct (List.find _ _) as [cmd|] eqn:Hfind;
    [|by intros ?%elem_of_nil].
  destruct (find_command _ _ _ _ _ _ Hfind) as [Hin _].
  cbv zeta. cbn [fst]. rewrite cli_eq. cbn [fst].
  intros [Hev|Hev]%elem_of_app.
  - left. destruct (truthy _); [by apply elem_of_nil in Hev|].
    apply list_elem_of_fmap in Hev as (line & -> & Hline).
    exists line. split; [done|]. cbn in Hline.
    repeat (apply elem_of_cons in Hline as [->|Hline]); try done.
    by apply elem_of_nil in Hline.
  - destruct (run_command_cases create_module delete_module con env cmd
                {| info_name := prog_name inv; obj := Some (Dict ∅) |}
                (args inv) Hin)
      as [(d & Hm)|[[Hm|Hm]|[(v & Hm)|Hm]]].
    + rewrite Hm in Hev. by apply elem_of_nil in Hev.
    + destruct Hm as (a1 & a2 & a3 & a4 & a5 & a6 & Hm). rewrite Hm in Hev.
      apply list_elem_of_singleton in Hev as ->. right. by eexists _, _, _.
    + destruct Hm as (a1 & a2 & a3 & Hm). rewrite Hm in Hev.
      apply list_elem_of_singleton in Hev as ->. right. by eexists _, _, _.
    + left. rewrite Hm in Hev.
      apply validate_events in Hev as [-> | ->]; by eexists.
    + left. rewrite Hm, version_eq in Hev. cbn [fst] in Hev.
      repeat (apply elem_of_cons in Hev as [->|Hev]); try by eexists.
      by apply elem_of_nil in Hev.
Qed.

(** A handler call is the last event of the command phase, and an error
    of the handler is how the phase ends. *)
Lemma command_phase_call inv ev r :
  ev ∈ (command_phase env inv).1 →
  handler_outcome ev = Some r →
  command_phase env inv =
  ((cli env {| info_name := prog_name inv; obj := Some (Dict ∅) |}).1
   ++ [ev],
   match r with Ok _ => Raised (Exit 0) | Raised e => Raised e end).
Proof.
  rewrite command_phase_eq.
  destruct (List.find _ _) as [cmd|] eqn:Hfind;
    [|by intros ?%elem_of_nil].
  destruct (find_command _ _ _ _ _ _ Hfind) as [Hin _].
  cbv zeta. cbn [fst]. rewrite cli_eq. cbn [fst].
  intros Hev Hout.
  assert (run_command cmd
            {| info_name := prog_name inv; obj := Some (Dict ∅) |}
            (args inv) = ([ev], r)) as ->; [|done].
  apply elem_of_app in Hev as [Hev|Hev].
  { destruct (truthy _); [by apply elem_of_nil in Hev|].
    by apply list_elem_of_fmap in Hev as (? & -> & _). }
  destruct (run_command_cases create_module delete_module con env cmd
              {| info_name := prog_name inv; obj := Some (Dict ∅) |}
              (args inv) Hin)
    as [(d & Hm)|[[Hm|Hm]|[(v & Hm)|Hm]]].
  - rewrite Hm in Hev. by apply elem_of_nil in Hev.
  - destruct Hm as (a1 & a2 & a3 & a4 & a5 & a6 & Hm).
    rewrite Hm in Hev |- *.
    apply list_elem_of_singleton in Hev as ->. cbn in Hout |- *. congruence.
  - destruct Hm as (a1 & a2 & a3 & Hm). rewrite Hm in Hev |- *.
    apply list_elem_of_singleton in Hev as ->. cbn in Hout |- *. congruence.
  - rewrite Hm in Hev. by apply validate_events in Hev as [-> | ->].
  - rewrite Hm, version_eq in Hev. cbn [fst] in Hev.
    repeat (apply elem_of_cons in Hev as [->|Hev]); try done.
    by apply elem_of_nil in Hev.
Qed.

(** The events of a computation cut short are events of the computation. *)
Lemma interrupted_events {A} k (m : M A) ev :
  ev ∈ (interrupted k m).1 → ev ∈ m.1.
Proof.
  unfold interrupted. destruct k as [n|]; [|done].
  destruct (Nat.leb n (length m.1)); [|done].
  cbn [fst]. intros Hev. rewrite <- (take_drop n m.1).
  apply elem_of_app. by left.
Qed.

(** No failure message of [main] reads like the notice of click. *)
Lemma aborted_is_no_error_message e :
  "Aborted!" ≠ error_message str_builtin e.
Proof. done. Qed.

(** A run whose command phase ends in an interrupt, with no interrupt
    before or after it. *)
Lemma run_interrupted sig inv t :
  at_start sig = false → in_click sig = None →
  interrupted (in_command sig) (command_phase env inv)
  = (t, Raised KeyboardInterrupt) →
  run_signalled sig env inv =
  (t ++ [Echo Stderr ""; Echo Stderr "Aborted!"], Exited 1).
Proof.
  intros Hstart Hclick Hphase.
  unfold Cli.run_signalled, Cli.main_signalled, Click.main_signalled.
  rewrite Hstart, Hclick.
  unfold Cli.command_phase in Hphase. rewrite Hphase. cbn.
  by rewrite app_nil_r.
Qed.

(** C4.  The user interrupts while the command runs: a signal arrives
    between two events of the command, or the handler is interrupted and
    raises [KeyboardInterrupt].  If no further interrupt follows, the
    interrupt is caught under the call [cli(obj={})] of [main], by click:
    after what the command did so far come an empty line and click's
    notice [Aborted!] on the error stream, and the exit status is 1.  The
    notice differs from every failure message of [main], and no failure
    message is printed. *)
Theorem interrupt_during_command sig inv :
  at_start sig = false → in_click sig = None →
  (∃ n, in_command sig = Some n ∧ (n <= length (command_phase env inv).1)%nat)
  ∨ (in_command sig = None
     ∧ ∃ ev, ev ∈ (command_phase env inv).1
             ∧ handler_outcome ev = Some (Raised KeyboardInterrupt)) →
  run_signalled sig env inv =
  ((interrupted (in_command sig) (command_phase env inv)).1
   ++ [Echo Stderr ""; Echo Stderr "Aborted!"], Exited 1)
  ∧ (∀ e, "Aborted!" ≠ error_message str_builtin e)
  ∧ (∀ e, Echo Stderr (error_message str_builtin e)
          ∉ (run_signalled sig env inv).1).
Proof.
  intros Hstart Hclick Hint.
  assert (Hphase : interrupted (in_command sig) (command_phase env inv)
                   = ((interrupted (in_command sig)
                         (command_phase env inv)).1,
                      Raised KeyboardInterrupt)).
  { destruct Hint as [(n & Hn & Hle)|(Hn & ev & Hev & Hout)];
      rewrite Hn; unfold interrupted.
    - apply Nat.leb_le in Hle. by rewrite Hle.
    - by rewrite (command_phase_call inv ev _ Hev Hout). }
  rewrite (run_interrupted sig inv _ Hstart Hclick Hphase).
  split; [done|]. split; [apply aborted_is_no_error_message|].
  intros e [Hev|Hev]%elem_of_app.
  - apply interrupted_events in Hev.
    by apply command_phase_events in Hev as [(? & ? & _)|(? & ? & ? & ?)].
  - repeat (apply elem_of_cons in Hev as [?|Hev]); try done.
    by apply elem_of_nil in Hev.
Qed.

(** What surfaces from click when interrupts may arrive at any time. *)
Lemma standalone_handling_outcome e :
  click_catches e = true →
  ∃ t code, standalone_handling con e = (t, Raised (SystemExit code))
            ∧ ∀ ev, ev ∈ t → (∃ m, ev = Echo Stderr m)
                              ∨ (∃ d, ev = ShowUsage d).
Proof.
  destruct e; try done; intros _; eexists _, _; (split; [reflexivity|]);
    intros ev Hev; repeat (apply elem_of_cons in Hev as [->|Hev]); eauto;
    by apply elem_of_nil in Hev.
Qed.

(** The command phase always ends in an exception: that of the command,
    or the request to exit that follows it. *)
Lemma command_phase_raises sig inv :
  ∃ t e, interrupted (in_command sig) (command_phase env inv)
         = (t, Raised e).
Proof.
  assert (∃ t e, command_phase env inv = (t, Raised e)) as (t & e & ->).
  { rewrite command_phase_eq. destruct (List.find _ _); [|by eexists _, _].
    cbv zeta. destruct (run_command _ _ _).2; by eexists _, _. }
  unfold interrupted. destruct (in_command sig) as [n|]; [|by eexists _, _].
  destruct (Nat.leb _ _); by eexists _, _.
Qed.

(** A run of click with interrupts: the command phase, then the [except]
    block for what it raised, if click has one. *)
Lemma click_main_signalled_cases sig inv t r :
  at_start sig = false →
  Click.main_signalled sig con (cli_group env) (Some (Dict ∅)) inv = (t, r) →
  ∃ t0 e t1,
    interrupted (in_command sig) (command_phase env inv) = (t0, Raised e)
    ∧ t = t0 ++ t1
    ∧ ((click_catches e = true
        ∧ interrupted (in_click sig) (standalone_handling con e) = (t1, r))
       ∨ (click_catches e = false ∧ t1 = [] ∧ r = Raised e)).
Proof.
  intros Hstart. unfold Click.main_signalled. rewrite Hstart.
  destruct (command_phase_raises sig inv) as (t0 & e & Hphase).
  unfold Cli.command_phase in Hphase. rewrite Hphase.
  unfold try_except. destruct (click_catches e) eqn:He.
  - destruct (interrupted (in_click sig) _) as [t1 r1] eqn:Hhandling.
    intros [= <- <-]. exists t0, e, t1. split; [done|]. split; [done|].
    by left.
  - intros [= <- <-]. exists t0, e, []. split; [done|]. split; [done|].
    by right.
Qed.

(** X13.  The [except KeyboardInterrupt] clause of [main] is reached only
    by an interrupt that arrives outside the inner [try] of click: before
    click has entered it, or while click handles what left it.  An
    interrupt during the command, be it a signal or the outcome of a
    handler, is click's: then no [KeyboardInterrupt] surfaces from
    [cli(obj={})] and the notice of [main] is not printed.  An interrupt
    that does surface is answered by the clause, with the notice on
    standard output when that can encode it, and status 1. *)
Theorem interrupt_clause_reach sig inv t r :
  Click.main_signalled sig con (cli_group env) (Some (Dict ∅)) inv = (t, r) →
  (r = Raised KeyboardInterrupt →
   at_start sig = true
   ∨ ∃ n t0 e,
       in_click sig = Some n
       ∧ interrupted (in_command sig) (command_phase env inv)
         = (t0, Raised e)
       ∧ click_catches e = true
       ∧ (n <= length (standalone_handling con e).1)%nat)
  ∧ (at_start sig = false → in_click sig = None →
     r ≠ Raised KeyboardInterrupt
     ∧ Echo Stdout cancelled_notice ∉ (run_signalled sig env inv).1)
  ∧ (r = Raised KeyboardInterrupt → in_caller sig = None →
     encodes con cancelled_notice = true →
     run_signalled sig env inv
     = (t ++ [Echo Stdout cancelled_notice], Exited 1)).
Proof.
  intros Hmain.
  assert (Hreach :
    r = Raised KeyboardInterrupt →
    at_start sig = true
    ∨ ∃ n t0 e,
        in_click sig = Some n
        ∧ interrupted (in_command sig) (command_phase env inv)
          = (t0, Raised e)
        ∧ click_catches e = true
        ∧ (n <= length (standalone_handling con e).1)%nat).
  { intros ->. destruct (at_start sig) eqn:Hstart; [by left|right].
    destruct (click_main_signalled_cases sig inv t _ Hstart Hmain)
      as (t0 & e & t1 & Hphase & _ & [[He Hhandling]|[He [_ [= <-]]]]);
      [|done].
    destruct (standalone_handling_outcome e He) as (t2 & code & Ht2 & _).
    unfold interrupted in Hhandling.
    destruct (in_click sig) as [n|]; [|by rewrite Ht2 in Hhandling].
    destruct (Nat.leb n _) eqn:Hle; [|by rewrite Ht2 in Hhandling].
    exists n, t0, e. by apply Nat.leb_le in Hle. }
  split; [exact Hreach|]. split.
  - intros Hstart Hclick.
    assert (Hr : r ≠ Raised KeyboardInterrupt).
    { intros Hr. destruct (Hreach Hr) as [?|(n & ? & ? & ? & _)]; congruence. }
    split; [exact Hr|].
    destruct (click_main_signalled_cases sig inv t r Hstart Hmain)
      as (t0 & e & t1 & Hphase & -> & Hcases).
    assert (Ht0 : Echo Stdout cancelled_notice ∉ t0).
    { intros Hev.
      assert (Hev' : Echo Stdout cancelled_notice
                     ∈ (interrupted (in_command sig)
                          (command_phase env inv)).1)
        by by rewrite Hphase.
      apply interrupted_events in Hev'.
      apply command_phase_events in Hev'
        as [(line & [= <-] & Hline)|(? & ? & ? & ?)]; done. }
    assert (Ht1 : Echo Stdout cancelled_notice ∉ t1).
    { destruct Hcases as [[He Hhandling]|[_ [-> _]]];
        [|by intros ?%elem_of_nil].
      rewrite Hclick in Hhandling. cbn in Hhandling.
      destruct (standalone_handling_outcome e He) as (t2 & code & Ht2 & Hall).
      rewrite Ht2 in Hhandling. injection Hhandling as <- _.
      by intros [[? ?]|[? ?]]%Hall. }
    unfold Cli.run_signalled, Cli.main_signalled. rewrite Hmain.
    destruct r as [[]|e']; cbn [try_except fst].
    { by intros [?|?]%elem_of_app. }
    destruct (main_catches e') eqn:Hcatch.
    + destruct (interrupted (in_caller sig) (main_except e'))
        as [t2 r2] eqn:Hexcept.
      cbn [fst]. intros [[?|?]%elem_of_app|Hev]%elem_of_app; [done..|].
      assert (Hev' : Echo Stdout cancelled_notice
                     ∈ (interrupted (in_caller sig) (main_except e')).1)
        by by rewrite Hexcept.
      apply interrupted_events in Hev'.
      destruct e'; try done;
        (repeat (apply elem_of_cons in Hev' as [?|Hev']); try done;
         by apply elem_of_nil in Hev').
    + cbn. rewrite app_nil_r. by intros [?|?]%elem_of_app.
  - intros -> Hcaller Hencodes.
    unfold Cli.run_signalled, Cli.main_signalled. rewrite Hmain.
    cbn [try_except main_catches]. rewrite Hcaller. cbn [interrupted].
    rewrite main_except_interrupt, Hencodes. reflexivity.
Qed.

End More.

(** ** The requirements read by [setup.py] *)

Section Requirements.

Import Setup.

Lemma lstrip_head s c r : lstrip s = c :: r → isspace c = false.
Proof.
  induction s as [|a s IH]; [done|]. cbn.
  destruct (isspace a) eqn:Ha; [done|]. by intros [= <- _].
Qed.

(** [rstrip] keeps a prefix of its argument. *)
Lemma rstrip_prefix s : ∃ tl, s = rstrip s ++ tl.
Proof.
  induction s as [|a s [tl IH]]; [by exists []|]. cbn.
  destruct (rstrip s) as [|b r] eqn:Hr.
  - destruct (isspace a); [by exists (a :: s)|]. exists s. done.
  - exists tl. cbn. by rewrite IH at 1.
Qed.

Lemma rstrip_last s c : last (rstrip s) = Some c → isspace c = false.
Proof.
  induction s as [|a s IH]; [done|]. cbn.
  destruct (rstrip s) as [|b r] eqn:Hr.
  - destruct (isspace a) eqn:Ha; [done|]. by intros [= <-].
  - intros Hlast. apply IH. by destruct r.
Qed.

(** [rstrip] leaves alone what does not end in whitespace, and [lstrip]
    what does not start with it. *)
Lemma rstrip_id s :
  (∀ c, last s = Some c → isspace c = false) → rstrip s = s.
Proof.
  induction s as [|a s IH]; [done|]. intros Hlast. cbn.
  destruct s as [|b s].
  - cbn. by rewrite (Hlast a).
  - rewrite IH; [done|]. intros c Hc. by apply Hlast.
Qed.

Lemma strip_head s c : head (strip s) = Some c → isspace c = false.
Proof.
  unfold strip. destruct (rstrip_prefix (lstrip s)) as [tl Htl].
  destruct (rstrip (lstrip s)) as [|a r] eqn:Hr; [done|].
  intros [= <-]. by apply (lstrip_head s a (r ++ tl)).
Qed.

Lemma lstrip_id s :
  (∀ c, head s = Some c → isspace c = false) → lstrip s = s.
Proof. destruct s as [|a s]; [done|]. intros H. cbn. by rewrite (H a). Qed.

(** Stripping twice is stripping once. *)
Lemma strip_strip s : strip (strip s) = strip s.
Proof.
  unfold strip at 1. rewrite lstrip_id by apply strip_head.
  apply rstrip_id. unfold strip. apply rstrip_last.
Qed.

(** X11.  Every requirement handed to [setup] is clean: it is not empty,
    it neither starts nor ends with a whitespace character (so it holds no
    line terminator at its end), and stripping it again changes nothing. *)
Theorem requirements_clean fh r :
  r ∈ requirements fh →
  r ≠ []
  ∧ (∀ c, head r = Some c → isspace c = false)
  ∧ (∀ c, last r = Some c → isspace c = false)
  ∧ strip r = r.
Proof.
  unfold requirements.
  intros (line & -> & [Hkeep _]%list_elem_of_filter)%list_elem_of_fmap.
  apply andb_true_iff in Hkeep as [Hne _].
  split; [by destruct (strip line)|]. split; [apply strip_head|].
  split; [apply rstrip_last|apply strip_strip].
Qed.

(** The comment mark is not whitespace. *)
Lemma hash_not_space : isspace hash = false.
Proof. reflexivity. Qed.

(** X12.  A line is taken for a comment only when [#] is its very first
    character.  So a requirement that starts with [#] comes from an
    indented line, and every indented line whose text starts with [#]
    ends up among the requirements. *)
Theorem indented_comment_is_a_requirement fh r :
  head r = Some hash →
  (r ∈ requirements fh
   ↔ ∃ line c, line ∈ fh ∧ head line = Some c ∧ isspace c = true
               ∧ strip line = r).
Proof.
  intros Hr. unfold requirements. rewrite list_elem_of_fmap. split.
  - intros (line & -> & [Hkeep Hin]%list_elem_of_filter).
    apply andb_true_iff in Hkeep as [_ Hstart%negb_true_iff].
    destruct line as [|c line]; [done|].
    exists (c :: line), c. repeat split; [done|].
    destruct (isspace c) eqn:Hc; [done|].
    unfold strip in Hr. cbn in Hr, Hstart. rewrite Hc in Hr.
    destruct (rstrip_prefix (c :: line)) as [tl Htl].
    destruct (rstrip (c :: line)) as [|a rest]; [done|].
    injection Hr as ->. injection Htl as ->.
    by rewrite bool_decide_eq_true_2 in Hstart.
  - intros (line & c & Hin & Hc & Hspace & <-).
    exists line. split; [done|]. apply list_elem_of_filter. split; [|done].
    apply andb_true_iff. split.
    + by destruct (strip line).
    + destruct line as [|a line]; [done|]. injection Hc as ->. cbn.
      apply negb_true_iff, bool_decide_eq_false. intros ->.
      by rewrite hash_not_space in Hspace.
Qed.

End Requirements.

(** ** The further statements at concrete inputs *)

(** [create linux-admin --category devops --difficulty intermediate], the
    second example of the docstring of [create]. *)
Lemma create_call_witness :
  let ts := [OptValue "category" "devops";
             OptValue "difficulty" "intermediate"] in
  (∀ v, opt_value difficulty_option ts = Some v → v ∈ difficulty_choices)
  ∧ (∀ v, opt_value language_option ts = Some v → v ∈ language_choices)
  ∧ calls (run create_ok (delete_raising Abort) (λ _, "") utf8_console ∅
               {| prog_name := "info_tech_cli"; command := "create";
                  args := {| opts := ts; largs := ["linux-admin"] |} |}).1
    = [("create_module",
        [VStr "linux-admin"; VStr "module-basic"; VStr "devops";
         VStr "intermediate"; VStr "ru"; VBool false])].
Proof.
  cbv zeta.
  assert (H1 : ∀ v, opt_value difficulty_option
                      [OptValue "category" "devops";
                       OptValue "difficulty" "intermediate"] = Some v →
                    v ∈ difficulty_choices).
  { intros v [= <-]. apply (bool_decide_unpack _). by vm_compute. }
  assert (H2 : ∀ v, opt_value language_option
                      [OptValue "category" "devops";
                       OptValue "difficulty" "intermediate"] = Some v →
                    v ∈ language_choices).
  { intros v [=]. }
  split; [exact H1|]. split; [exact H2|].
  exact (create_call create_ok (delete_raising Abort) (λ _, "") utf8_console ∅
           "info_tech_cli" _ "linux-admin" H1 H2).
Defined.

(** [delete] alone. *)
Lemma missing_module_name_witness :
  let inv := {| prog_name := "info_tech_cli"; command := "delete";
                args := {| opts := [OptFlag "force"]; largs := [] |} |} in
  (command inv = "create" ∨ command inv = "delete")
  ∧ largs (args inv) = []
  ∧ ∃ e,
      run create_ok (delete_raising Abort) (λ _, "") utf8_console ∅ inv =
      ((cli utf8_console ∅ {| info_name := prog_name inv; obj := Some (Dict ∅) |}).1
       ++ [ShowUsage e], Exited 2)
      ∧ calls (run create_ok (delete_raising Abort) (λ _, "") utf8_console ∅ inv).1 = []
      ∧ (e = MissingParameter "module_name"
         ∨ (command inv = "create"
            ∧ ∃ opt flags raw cs, e = BadChoice opt flags raw cs ∧ raw ∉ cs)).
Proof.
  cbv zeta. split; [by right|]. split; [reflexivity|].
  exact (missing_module_name create_ok (delete_raising Abort) (λ _, "") utf8_console ∅
           {| prog_name := "info_tech_cli"; command := "delete";
              args := {| opts := [OptFlag "force"]; largs := [] |} |}
           (or_intror eq_refl) eq_refl).
Defined.

(** [version now]. *)
Lemma too_many_words_witness :
  let inv := {| prog_name := "info_tech_cli"; command := "version";
                args := {| opts := []; largs := ["now"] |} |} in
  version_command utf8_console
    ∈ commands (cli_group create_ok (delete_raising Abort) utf8_console ∅)
  ∧ cmd_name (version_command utf8_console) = command inv
  ∧ arity (version_command utf8_console) < length (largs (args inv))
  ∧ ∃ e,
      run create_ok (delete_raising Abort) (λ _, "") utf8_console ∅ inv =
      ((cli utf8_console ∅ {| info_name := prog_name inv; obj := Some (Dict ∅) |}).1
       ++ [ShowUsage e], Exited 2)
      ∧ calls (run create_ok (delete_raising Abort) (λ _, "") utf8_console ∅ inv).1 = [].
Proof.
  cbv zeta.
  assert (Hin : version_command utf8_console
                ∈ commands (cli_group create_ok (delete_raising Abort) utf8_console ∅))
    by (do 3 right; left).
  assert (Hlen : arity (version_command utf8_console) < 1) by (vm_compute; lia).
  split; [exact Hin|]. split; [reflexivity|]. split; [exact Hlen|].
  exact (too_many_words create_ok (delete_raising Abort) (λ _, "") utf8_console ∅
           {| prog_name := "info_tech_cli"; command := "version";
              args := {| opts := []; largs := ["now"] |} |}
           (version_command utf8_console) Hin eq_refl Hlen).
Defined.

(** [deploy], which is no sub-command, with no token in the environment. *)
Lemma unknown_command_witness :
  let inv := {| prog_name := "info_tech_cli"; command := "deploy";
                args := {| opts := []; largs := [] |} |} in
  ¬ registered (command inv)
  ∧ run create_ok (delete_raising Abort) (λ _, "") utf8_console ∅ inv
    = ([ShowUsage (NoSuchCommand "deploy")], Exited 2).
Proof.
  cbv zeta.
  assert (H : ¬ registered "deploy")
    by (apply (bool_decide_unpack _); by vm_compute).
  split; [exact H|].
  exact (unknown_command create_ok (delete_raising Abort) (λ _, "") utf8_console ∅
           {| prog_name := "info_tech_cli"; command := "deploy";
              args := {| opts := []; largs := [] |} |} H).
Defined.

(** [create python-basics] with a handler that returns. *)
Lemma handler_returns_witness :
  let inv := {| prog_name := "info_tech_cli"; command := "create";
                args := {| opts := []; largs := ["python-basics"] |} |} in
  let ev := Call "create_module"
                 {| info_name := "create"; obj := Some (Dict ∅) |}
                 [VStr "python-basics"; VStr "module-basic";
                  VStr "programming"; VStr "beginner"; VStr "ru";
                  VBool false] in
  ev ∈ (run create_ok (delete_raising Abort) (λ _, "") utf8_console
            {["GITHUB_TOKEN" := "t"]} inv).1
  ∧ handler_outcome create_ok (delete_raising Abort)
                    {["GITHUB_TOKEN" := "t"]} ev = Some (Ok tt)
  ∧ run create_ok (delete_raising Abort) (λ _, "") utf8_console
        {["GITHUB_TOKEN" := "t"]} inv = ([ev], Exited 0).
Proof.
  cbv zeta.
  assert (Hin :
    Call "create_module" {| info_name := "create"; obj := Some (Dict ∅) |}
         [VStr "python-basics"; VStr "module-basic"; VStr "programming";
          VStr "beginner"; VStr "ru"; VBool false]
    ∈ (run create_ok (delete_raising Abort) (λ _, "") utf8_console
           {["GITHUB_TOKEN" := "t"]}
           {| prog_name := "info_tech_cli"; command := "create";
              args := {| opts := []; largs := ["python-basics"] |} |}).1)
    by (vm_compute; left).
  split; [exact Hin|]. split; [reflexivity|].
  exact (proj1 (handler_returns create_ok (delete_raising Abort) (λ _, "") utf8_console
                  {["GITHUB_TOKEN" := "t"]} _ _ Hin eq_refl)).
Defined.

(** [delete module-x] with a handler that calls [sys.exit(256)]: the
    process ends with status 0. *)
Lemma handler_exit_status_witness :
  let inv := {| prog_name := "info_tech_cli"; command := "delete";
                args := {| opts := []; largs := ["module-x"] |} |} in
  let ev := Call "delete_module"
                 {| info_name := "delete"; obj := Some (Dict ∅) |}
                 [VStr "module-x"; VBool false; VBool false] in
  ev ∈ (run create_ok (delete_raising (SystemExit 256)) (λ _, "")
            utf8_console {["GITHUB_TOKEN" := "t"]} inv).1
  ∧ run create_ok (delete_raising (SystemExit 256)) (λ _, "") utf8_console
        {["GITHUB_TOKEN" := "t"]} inv = ([ev], Exited 0).
Proof.
  cbv zeta.
  assert (Hin :
    Call "delete_module" {| info_name := "delete"; obj := Some (Dict ∅) |}
         [VStr "module-x"; VBool false; VBool false]
    ∈ (run create_ok (delete_raising (SystemExit 256)) (λ _, "")
           utf8_console {["GITHUB_TOKEN" := "t"]}
           {| prog_name := "info_tech_cli"; command := "delete";
              args := {| opts := []; largs := ["module-x"] |} |}).1)
    by (vm_compute; left).
  split; [exact Hin|].
  exact (proj1 (handler_exit_status create_ok
                  (delete_raising (SystemExit 256))
                  (λ _, "") utf8_console {["GITHUB_TOKEN" := "t"]} _ _ 256
                  Hin (or_introl eq_refl))).
Defined.

(** [delete module-x] with a handler that raises a click exception. *)
Lemma handler_click_exception_witness :
  let inv := {| prog_name := "info_tech_cli"; command := "delete";
                args := {| opts := []; largs := ["module-x"] |} |} in
  let ev := Call "delete_module"
                 {| info_name := "delete"; obj := Some (Dict ∅) |}
                 [VStr "module-x"; VBool false; VBool false] in
  let delete_module := delete_raising (ClickException 1 "no such module") in
  ev ∈ (run create_ok delete_module (λ _, "") utf8_console
            {["GITHUB_TOKEN" := "t"]} inv).1
  ∧ run create_ok delete_module (λ _, "") utf8_console {["GITHUB_TOKEN" := "t"]} inv
    = ([ev; Echo Stderr "Error: no such module"], Exited 1).
Proof.
  cbv zeta.
  assert (Hin :
    Call "delete_module" {| info_name := "delete"; obj := Some (Dict ∅) |}
         [VStr "module-x"; VBool false; VBool false]
    ∈ (run create_ok (delete_raising (ClickException 1 "no such module"))
           (λ _, "") utf8_console {["GITHUB_TOKEN" := "t"]}
           {| prog_name := "info_tech_cli"; command := "delete";
              args := {| opts := []; largs := ["module-x"] |} |}).1)
    by (vm_compute; left).
  split; [exact Hin|].
  exact (proj1 (handler_click_exception create_ok
                  (delete_raising (ClickException 1 "no such module"))
                  (λ _, "") utf8_console {["GITHUB_TOKEN" := "t"]} _ _ Hin)
               1%Z "no such module" eq_refl).
Defined.

(** [create python-basics --difficulty expert --language en]. *)
Lemma create_reports_offending_option_witness :
  let ts := [OptValue "difficulty" "expert"; OptValue "language" "en"] in
  opt_value difficulty_option ts = Some "expert"
  ∧ ("expert" ∉ difficulty_choices)
  ∧ (∀ w, opt_value language_option ts = Some w → w ∈ language_choices)
  ∧ run create_ok (delete_raising Abort) (λ _, "") utf8_console {["GITHUB_TOKEN" := "t"]}
        {| prog_name := "info_tech_cli"; command := "create";
           args := {| opts := ts; largs := ["python-basics"] |} |}
    = ([ShowUsage (BadChoice "difficulty" ["--difficulty"; "-d"] "expert"
                             difficulty_choices)],
       Exited 2).
Proof.
  cbv zeta.
  assert (H1 : "expert" ∉ difficulty_choices)
    by (apply (bool_decide_unpack _); by vm_compute).
  assert (H2 : ∀ w, opt_value language_option
                      [OptValue "difficulty" "expert";
                       OptValue "language" "en"] = Some w →
                    w ∈ language_choices).
  { intros w [= <-]. apply (bool_decide_unpack _). by vm_compute. }
  split; [reflexivity|]. split; [exact H1|]. split; [exact H2|].
  exact (proj1 (create_reports_offending_option create_ok
                  (delete_raising Abort) (λ _, "") utf8_console {["GITHUB_TOKEN" := "t"]}
                  "info_tech_cli"
                  [OptValue "difficulty" "expert"; OptValue "language" "en"]
                  ["python-basics"] "expert")
               eq_refl H1 H2).
Defined.

(** A file with the one line [click>=8.0] and its line terminator. *)
Lemma requirements_clean_witness :
  let line := [99; 108; 105; 99; 107; 62; 61; 56; 46; 48; 10]%N in
  let r := [99; 108; 105; 99; 107; 62; 61; 56; 46; 48]%N in
  r ∈ Setup.requirements [line]
  ∧ r ≠ []
  ∧ (∀ c, head r = Some c → Setup.isspace c = false)
  ∧ (∀ c, last r = Some c → Setup.isspace c = false)
  ∧ Setup.strip r = r.
Proof.
  cbv zeta.
  assert (Hin : [99; 108; 105; 99; 107; 62; 61; 56; 46; 48]%N
                ∈ Setup.requirements
                    [[99; 108; 105; 99; 107; 62; 61; 56; 46; 48; 10]%N])
    by (vm_compute; left).
  split; [exact Hin|]. exact (requirements_clean _ _ Hin).
Defined.

(** A file with the one line [  # pinned], indented by two spaces. *)
Lemma indented_comment_is_a_requirement_witness :
  let line := [32; 32; 35; 32; 112; 105; 110; 110; 101; 100; 10]%N in
  let r := [35; 32; 112; 105; 110; 110; 101; 100]%N in
  head r = Some Setup.hash
  ∧ r ∈ Setup.requirements [line].
Proof.
  cbv zeta. split; [reflexivity|].
  apply (indented_comment_is_a_requirement
           [[32; 32; 35; 32; 112; 105; 110; 110; 101; 100; 10]%N]
           [35; 32; 112; 105; 110; 110; 101; 100]%N eq_refl).
  exists [32; 32; 35; 32; 112; 105; 110; 110; 101; 100; 10]%N, 32%N.
  split; [left|]. split; [reflexivity|]. split; reflexivity.
Defined.

(** [validate ./my-module] where standard output is UTF-8. *)
Lemma validate_coming_soon_witness :
  let line := "🔍 Validating module at: ./my-module" in
  let notice := "⚠️  Validation feature coming soon..." in
  encodes utf8_console line = true
  ∧ encodes utf8_console notice = true
  ∧ run create_ok (delete_raising Abort) (λ _, "") utf8_console
        {["GITHUB_TOKEN" := "t"]}
        {| prog_name := "info_tech_cli"; command := "validate";
           args := {| opts := []; largs := ["./my-module"] |} |}
    = ([Echo Stdout line; Echo Stdout notice], Exited 0).
Proof.
  cbv zeta. split; [reflexivity|]. split; [reflexivity|].
  exact (proj1 (validate_coming_soon create_ok (delete_raising Abort)
                  (λ _, "") utf8_console {["GITHUB_TOKEN" := "t"]}
                  "info_tech_cli" (Some "./my-module") eq_refl eq_refl)).
Defined.

(** [validate ./my-module] where standard output is Latin-1: the first
    line cannot be written, [main] reports the error of the codec and the
    exit status is 1. *)
Lemma validate_unencodable_fails :
  let r := run create_ok (delete_raising Abort) (λ _, "") latin1_console
               {["GITHUB_TOKEN" := "t"]}
               {| prog_name := "info_tech_cli"; command := "validate";
                  args := {| opts := []; largs := ["./my-module"] |} |} in
  r = ([Echo Stderr "❌ Error: 'latin-1' codec can't encode character '\U0001f50d' in position 0: ordinal not in range(256)"],
       Exited 1)
  ∧ r.2 ≠ Exited 0
  ∧ echoed Stdout r.1 = [].
Proof. cbv zeta. split; [reflexivity|]. split; [|reflexivity]. by vm_compute. Qed.

(** [version] with no token in the environment. *)
Lemma missing_token_warning_nonfatal_witness :
  getenv (∅ : environ) "GITHUB_TOKEN" = None
  ∧ run create_ok (delete_raising Abort) (λ _, "") utf8_console ∅
        {| prog_name := "info_tech_cli"; command := "version";
           args := {| opts := []; largs := [] |} |}
    = ((Echo Stdout <$> token_warning)
       ++ [Echo Stdout "info_tech_cli version 0.1.0";
           Echo Stdout "InfoTech.io Educational Platform CLI";
           Echo Stdout "Author: A1eksMa <a1ex_ma@mail.ru>"],
       Exited 0).
Proof.
  split; [reflexivity|].
  exact (proj1 (proj2 (proj2 (proj2 (proj2
           (missing_token_warning_nonfatal create_ok (delete_raising Abort)
              (λ _, "") utf8_console ∅ eq_refl)))))
           "info_tech_cli").
Defined.

(** [delete module-x] with a handler that fails with an ordinary error. *)
Lemma handler_error_outcome_witness :
  let inv := {| prog_name := "info_tech_cli"; command := "delete";
                args := {| opts := []; largs := ["module-x"] |} |} in
  let ev := Call "delete_module"
                 {| info_name := "delete"; obj := Some (Dict ∅) |}
                 [VStr "module-x"; VBool false; VBool false] in
  let env : environ := {["GITHUB_TOKEN" := "t"]} in
  ev ∈ (run create_ok (delete_raising (PyError "boom")) (λ _, "")
            utf8_console env inv).1
  ∧ handler_outcome create_ok (delete_raising (PyError "boom")) env ev
    = Some (Raised (PyError "boom"))
  ∧ run create_ok (delete_raising (PyError "boom")) (λ _, "") utf8_console
        env inv
    = ([ev; Echo Stderr "❌ Error: boom"], Exited 1).
Proof.
  cbv zeta.
  assert (Hin :
    Call "delete_module" {| info_name := "delete"; obj := Some (Dict ∅) |}
         [VStr "module-x"; VBool false; VBool false]
    ∈ (run create_ok (delete_raising (PyError "boom")) (λ _, "")
           utf8_console {["GITHUB_TOKEN" := "t"]}
           {| prog_name := "info_tech_cli"; command := "delete";
              args := {| opts := []; largs := ["module-x"] |} |}).1)
    by (vm_compute; left).
  split; [exact Hin|]. split; [reflexivity|].
  exact (proj2 (handler_error_outcome create_ok
                  (delete_raising (PyError "boom")) (λ _, "") utf8_console
                  {["GITHUB_TOKEN" := "t"]} _)
               _ (PyError "boom") Hin eq_refl).
Defined.

(** [delete module-x] with a handler that fails on a broken pipe: click
    ends the process with status 1 and nothing is written to the error
    stream. *)
Lemma handler_broken_pipe_is_silent :
  let inv := {| prog_name := "info_tech_cli"; command := "delete";
                args := {| opts := []; largs := ["module-x"] |} |} in
  let ev := Call "delete_module"
                 {| info_name := "delete"; obj := Some (Dict ∅) |}
                 [VStr "module-x"; VBool false; VBool false] in
  let env : environ := {["GITHUB_TOKEN" := "t"]} in
  let r := run create_ok (delete_raising BrokenPipe) (λ _, "") utf8_console
               env inv in
  handler_outcome create_ok (delete_raising BrokenPipe) env ev
  = Some (Raised BrokenPipe)
  ∧ is_Exception BrokenPipe = true
  ∧ r = ([ev], Exited 1)
  ∧ echoed Stderr r.1 = []
  ∧ ¬ ∃ t m, r.1 = t ++ [m] ∧ on_stderr m.
Proof.
  cbv zeta. split; [reflexivity|]. split; [reflexivity|].
  split; [reflexivity|]. split; [reflexivity|].
  intros (t & m & Ht & Hm). change (run _ _ _ _ _ _).1
    with [Call "delete_module"
               {| info_name := "delete"; obj := Some (Dict ∅) |}
               [VStr "module-x"; VBool false; VBool false]] in Ht.
  destruct t as [|ev t].
  - injection Ht as <-. exact Hm.
  - injection Ht as _ Ht. by destruct t.
Qed.

(** [delete module-x], interrupted while [delete_module] runs. *)
Lemma interrupt_during_command_witness :
  let inv := {| prog_name := "info_tech_cli"; command := "delete";
                args := {| opts := []; largs := ["module-x"] |} |} in
  let ev := Call "delete_module"
                 {| info_name := "delete"; obj := Some (Dict ∅) |}
                 [VStr "module-x"; VBool false; VBool false] in
  let env : environ := {["GITHUB_TOKEN" := "t"]} in
  let delete_module := delete_raising KeyboardInterrupt in
  at_start no_signals = false
  ∧ in_click no_signals = None
  ∧ in_command no_signals = None
  ∧ ev ∈ (command_phase create_ok delete_module utf8_console env inv).1
  ∧ handler_outcome create_ok delete_module env ev
    = Some (Raised KeyboardInterrupt)
  ∧ run_signalled create_ok delete_module (λ _, "") utf8_console no_signals
                  env inv
    = ([ev; Echo Stderr ""; Echo Stderr "Aborted!"], Exited 1).
Proof.
  cbv zeta.
  assert (Hin :
    Call "delete_module" {| info_name := "delete"; obj := Some (Dict ∅) |}
         [VStr "module-x"; VBool false; VBool false]
    ∈ (command_phase create_ok (delete_raising KeyboardInterrupt)
         utf8_console {["GITHUB_TOKEN" := "t"]}
         {| prog_name := "info_tech_cli"; command := "delete";
            args := {| opts := []; largs := ["module-x"] |} |}).1)
    by (vm_compute; left).
  split; [reflexivity|]. split; [reflexivity|]. split; [reflexivity|].
  split; [exact Hin|]. split; [reflexivity|].
  exact (proj1 (interrupt_during_command create_ok
                  (delete_raising KeyboardInterrupt) (λ _, "") utf8_console
                  {["GITHUB_TOKEN" := "t"]} no_signals _ eq_refl eq_refl
                  (or_intror (conj eq_refl (ex_intro _ _ (conj Hin eq_refl)))))).
Defined.

(** [delete module-x], interrupted while [delete_module] runs and once
    more while click prints its notice: the second interrupt surfaces and
    the first clause of [main] answers it. *)
Lemma interrupt_clause_reach_witness :
  let inv := {| prog_name := "info_tech_cli"; command := "delete";
                args := {| opts := []; largs := ["module-x"] |} |} in
  let ev := Call "delete_module"
                 {| info_name := "delete"; obj := Some (Dict ∅) |}
                 [VStr "module-x"; VBool false; VBool false] in
  let env : environ := {["GITHUB_TOKEN" := "t"]} in
  let delete_module := delete_raising KeyboardInterrupt in
  let sig := {| at_start := false; in_command := None; in_click := Some 1;
                in_caller := None |} in
  Click.main_signalled sig utf8_console
    (cli_group create_ok delete_module utf8_console env) (Some (Dict ∅)) inv
  = ([ev; Echo Stderr ""], Raised KeyboardInterrupt)
  ∧ in_caller sig = None
  ∧ encodes utf8_console cancelled_notice = true
  ∧ run_signalled create_ok delete_module (λ _, "") utf8_console sig env inv
    = ([ev; Echo Stderr ""; Echo Stdout cancelled_notice], Exited 1).
Proof.
  cbv zeta. split; [reflexivity|]. split; [reflexivity|].
  split; [reflexivity|].
  exact (proj2 (proj2 (interrupt_clause_reach create_ok
                  (delete_raising KeyboardInterrupt) (λ _, "") utf8_console
                  {["GITHUB_TOKEN" := "t"]}
                  {| at_start := false; in_command := None;
                     in_click := Some 1; in_caller := None |}
                  {| prog_name := "info_tech_cli"; command := "delete";
                     args := {| opts := []; largs := ["module-x"] |} |}
                  _ _ eq_refl))
               eq_refl eq_refl eq_refl).
Defined.
